(** * Hangman: a shallow embedding of [src/hangman.py] and its properties

    The class [HangmanGame] is a record of its attributes; every method is a
    function that takes the object (and whatever it reads from outside: the
    clock, the random source, the files) and returns what the method returns
    together with the object as the method leaves it.  A raised exception is
    an [outcome] of its own, paired with the object as it was at the raise.

    Python values are represented as follows.
    - [str] is [string]; a character is a code point below 256 (Latin-1), and
      [str.isalpha], [str.lower], [str.strip] are Python's on that range.
      On it [lower()] gives one character for one character.  The one code
      point for which Python's [lower()] gives two, U+0130, is outside it,
      and so is a guess of it: [make_guess] accepts it, stores the two code
      points as one guessed letter, counts a hit when the target holds them
      in sequence, and reveals nothing, its loop comparing single
      characters.
    - [int] is [Z].
    - The readings of [time.time()] are rationals ([Q]); the rounding of
      floating-point subtraction is not represented.
    - [Set[str]] is [gset string], [List[str]] is [list string]. *)

From Stdlib Require Import ZArith QArith Qminmax Qround Lqa Ascii.
From stdpp Require Import base decidable numbers list gmap strings pretty.

Close Scope Q_scope.
Open Scope Z_scope.

(** ** Characters and strings *)

Definition ord (c : ascii) : N := Ascii.N_of_ascii c.
Definition chr (n : N) : ascii := Ascii.ascii_of_N n.

Definition between (lo hi : N) (c : ascii) : bool :=
  ((lo <=? ord c) && (ord c <=? hi))%N.

(** [c.isalpha()] for a one-character string: general category L*. *)
Definition char_isalpha (c : ascii) : bool :=
  between 0x41 0x5a c || between 0x61 0x7a c
  || between 0xaa 0xaa c || between 0xb5 0xb5 c || between 0xba 0xba c
  || between 0xc0 0xd6 c || between 0xd8 0xf6 c || between 0xf8 0xff c.

(** [c.lower()] for a one-character string. *)
Definition char_lower (c : ascii) : ascii :=
  if between 0x41 0x5a c || between 0xc0 0xd6 c || between 0xd8 0xde c
  then chr (ord c + 32)%N
  else c.

(** [c.isspace()] for a one-character string. *)
Definition char_isspace (c : ascii) : bool :=
  between 0x09 0x0d c || between 0x1c 0x20 c
  || between 0x85 0x85 c || between 0xa0 0xa0 c.

Fixpoint all_chars (p : ascii → bool) (s : string) : bool :=
  match s with
  | EmptyString => true
  | String c s' => p c && all_chars p s'
  end.

(** [s.isalpha()]: at least one character, and all of them alphabetic. *)
Definition str_isalpha (s : string) : bool :=
  match s with
  | EmptyString => false
  | _ => all_chars char_isalpha s
  end.

(** [s.lower()] *)
Fixpoint str_lower (s : string) : string :=
  match s with
  | EmptyString => EmptyString
  | String c s' => String (char_lower c) (str_lower s')
  end.

Fixpoint str_lstrip (s : string) : string :=
  match s with
  | EmptyString => EmptyString
  | String c s' => if char_isspace c then str_lstrip s' else s
  end.

Fixpoint str_rstrip (s : string) : string :=
  match s with
  | EmptyString => EmptyString
  | String c s' =>
      match str_rstrip s' with
      | EmptyString => if char_isspace c then EmptyString else String c EmptyString
      | r => String c r
      end
  end.

(** [s.strip()] *)
Definition str_strip (s : string) : string := str_rstrip (str_lstrip s).

(** [sub in s] on strings: [sub] occurs in [s] as a substring. *)
Fixpoint str_in (sub s : string) : bool :=
  String.prefix sub s
  || match s with
     | EmptyString => false
     | String _ s' => str_in sub s'
     end.

(** [sep.join(l)] *)
Definition str_join (sep : string) (l : list string) : string :=
  String.concat sep l.

(** [str(n)] and the [{n}] of an f-string, for an [int]. *)
Definition str_of_int (n : Z) : string := pretty n.

(** [int(x)]: truncation towards zero. *)
Definition int_of (x : Q) : Z := Z.quot (Qnum x) (Z.pos (Qden x)).

(** [max(0, x)]: the first argument unless the second is greater. *)
Definition max0 (x : Q) : Q := if Qlt_le_dec 0 x then x else 0%Q.

(** ** Exceptions *)

Inductive exn : Type :=
| ValueError (msg : string)
| IndexError
| FileNotFoundError.

Inductive outcome (A : Type) : Type :=
| Return (a : A)
| Raise (e : exn).
Arguments Return {A} a.
Arguments Raise {A} e.

(** [random.choice(seq)]: [IndexError] on an empty sequence, otherwise the
    element at the index the generator draws below [len(seq)]; [r] is the
    generator's draw. *)
Definition random_choice {A} (r : nat) (seq : list A) : outcome A :=
  match seq with
  | [] => Raise IndexError
  | x :: _ => Return (nth (r mod length seq) seq x)
  end.

(** [l[i] = x]: [IndexError] when [i] is out of range. *)
Definition setitem {A} (l : list A) (i : nat) (x : A) : outcome (list A) :=
  if decide (i < length l)%nat then Return (<[i:=x]> l) else Raise IndexError.

(** ** The game object *)

Inductive GameLevel : Type := BASIC | INTERMEDIATE.

Record HangmanGame : Type := {
  level : GameLevel;
  max_lives : Z;
  current_lives : Z;
  time_limit : Z;
  guessed_letters : gset string;
  game_over : bool;
  won : bool;
  target_word : string;
  display_word : list string;
  start_time : Q;
  dictionary : list string
}.

Definition set_current_lives (v : Z) (self : HangmanGame) : HangmanGame :=
  {| level := level self; max_lives := max_lives self; current_lives := v;
     time_limit := time_limit self; guessed_letters := guessed_letters self;
     game_over := game_over self; won := won self;
     target_word := target_word self; display_word := display_word self;
     start_time := start_time self; dictionary := dictionary self |}.

Definition set_guessed_letters (v : gset string) (self : HangmanGame) : HangmanGame :=
  {| level := level self; max_lives := max_lives self;
     current_lives := current_lives self;
     time_limit := time_limit self; guessed_letters := v;
     game_over := game_over self; won := won self;
     target_word := target_word self; display_word := display_word self;
     start_time := start_time self; dictionary := dictionary self |}.

Definition set_game_over (v : bool) (self : HangmanGame) : HangmanGame :=
  {| level := level self; max_lives := max_lives self;
     current_lives := current_lives self;
     time_limit := time_limit self; guessed_letters := guessed_letters self;
     game_over := v; won := won self;
     target_word := target_word self; display_word := display_word self;
     start_time := start_time self; dictionary := dictionary self |}.

Definition set_won (v : bool) (self : HangmanGame) : HangmanGame :=
  {| level := level self; max_lives := max_lives self;
     current_lives := current_lives self;
     time_limit := time_limit self; guessed_letters := guessed_letters self;
     game_over := game_over self; won := v;
     target_word := target_word self; display_word := display_word self;
     start_time := start_time self; dictionary := dictionary self |}.

Definition set_target_word (v : string) (self : HangmanGame) : HangmanGame :=
  {| level := level self; max_lives := max_lives self;
     current_lives := current_lives self;
     time_limit := time_limit self; guessed_letters := guessed_letters self;
     game_over := game_over self; won := won self;
     target_word := v; display_word := display_word self;
     start_time := start_time self; dictionary := dictionary self |}.

Definition set_display_word (v : list string) (self : HangmanGame) : HangmanGame :=
  {| level := level self; max_lives := max_lives self;
     current_lives := current_lives self;
     time_limit := time_limit self; guessed_letters := guessed_letters self;
     game_over := game_over self; won := won self;
     target_word := target_word self; display_word := v;
     start_time := start_time self; dictionary := dictionary self |}.

Definition set_start_time (v : Q) (self : HangmanGame) : HangmanGame :=
  {| level := level self; max_lives := max_lives self;
     current_lives := current_lives self;
     time_limit := time_limit self; guessed_letters := guessed_letters self;
     game_over := game_over self; won := won self;
     target_word := target_word self; display_word := display_word self;
     start_time := v; dictionary := dictionary self |}.

(** ** The methods *)

(** What [_load_dictionary] sees of the file system: for a path, the list
    [readlines()] gives, or [None] when [open] raises [FileNotFoundError].
    The other failures of [open] and [readlines] (a directory, a file that
    may not be read or is not text), which [_load_dictionary] does not catch
    and which therefore leave the constructor, are not represented: a
    statement over [files] speaks of a file that is read or is missing. *)
Definition files : Type := string → option (list string).

Definition open (fs : files) (path : string) : outcome (list string) :=
  match fs path with
  | Some lines => Return lines
  | None => Raise FileNotFoundError
  end.

Definition fallback_words : list string :=
  ["python"; "programming"; "computer"; "algorithm"; "software"].
Definition fallback_phrases : list string :=
  ["hello world"; "unit testing"; "software development"].

Definition _load_dictionary (fs : files) (lvl : GameLevel) : list string :=
  match
    match lvl with
    | BASIC => open fs "data/words.txt"
    | INTERMEDIATE => open fs "data/phrases.txt"
    end
  with
  | Return lines => map (λ word, str_lower (str_strip word)) lines
  | Raise _ =>
      match lvl with
      | BASIC => fallback_words
      | INTERMEDIATE => fallback_phrases
      end
  end.

(** The loop of [_select_target] over the characters of the target. *)
Fixpoint mask (target : string) (display : list string) : list string :=
  match target with
  | EmptyString => display
  | String char rest =>
      if char_isalpha char
      then mask rest (display ++ ["_"])
      else mask rest (display ++ [String char EmptyString])
  end.

(** [_select_target]: [r] is what the random generator draws. *)
Definition _select_target (r : nat) (self : HangmanGame)
  : outcome unit * HangmanGame :=
  match random_choice r (dictionary self) with
  | Raise e => (Raise e, self)
  | Return target =>
      let self := set_target_word target self in
      let self := set_display_word [] self in
      let self := set_display_word (mask (target_word self) (display_word self)) self in
      (Return (), self)
  end.

(** [HangmanGame(level)]: the object constructed, or the exception that
    leaves the constructor. *)
Definition __init__ (fs : files) (r : nat) (lvl : GameLevel)
  : outcome HangmanGame :=
  let self :=
    {| level := lvl; max_lives := 6; current_lives := 6; time_limit := 15;
       guessed_letters := ∅; game_over := false; won := false;
       target_word := ""; display_word := []; start_time := 0%Q;
       dictionary := _load_dictionary fs lvl |} in
  match _select_target r self with
  | (Raise e, _) => Raise e
  | (Return _, self) => Return self
  end.

(** In the methods below [now] is the value [time.time()] returns when the
    method reads the clock. *)
Definition start_timer (now : Q) (self : HangmanGame) : HangmanGame :=
  set_start_time now self.

Definition get_remaining_time (now : Q) (self : HangmanGame) : Q :=
  if Qeq_bool (start_time self) 0 then inject_Z (time_limit self)
  else
    let elapsed := (now - start_time self)%Q in
    let remaining := max0 (inject_Z (time_limit self) - elapsed)%Q in
    remaining.

Definition is_time_up (now : Q) (self : HangmanGame) : bool :=
  Qle_bool (get_remaining_time now self) 0.

Definition is_won (self : HangmanGame) : bool :=
  bool_decide ("_" ∉ display_word self).

Definition is_game_over (now : Q) (self : HangmanGame) : bool :=
  game_over self || is_time_up now self || (current_lives self <=? 0).

Definition get_display_string (self : HangmanGame) : string :=
  str_join " " (display_word self).

(** The loop of [make_guess] over [enumerate(self.target_word)], from index
    [i] on; the list is updated in place, so a raise leaves it as it was
    when the assignment failed. *)
Fixpoint reveal (letter : string) (i : nat) (target : string)
    (display : list string) : outcome unit * list string :=
  match target with
  | EmptyString => (Return (), display)
  | String char rest =>
      if decide (String char EmptyString = letter) then
        match setitem display i letter with
        | Return display' => reveal letter (S i) rest display'
        | Raise e => (Raise e, display)
        end
      else reveal letter (S i) rest display
  end.

(** [make_guess]: what it returns or raises, and the object as it leaves
    it. *)
Definition make_guess (letter : string) (self : HangmanGame)
  : outcome bool * HangmanGame :=
  if negb (String.length letter =? 1)%nat || negb (str_isalpha letter) then
    (Raise (ValueError "Please enter a single letter"), self)
  else
    let letter := str_lower letter in
    if decide (letter ∈ guessed_letters self) then
      (Raise (ValueError ("Letter '" +:+ letter +:+ "' has already been guessed")),
       self)
    else
      let self := set_guessed_letters ({[letter]} ∪ guessed_letters self) self in
      if str_in letter (target_word self) then
        match reveal letter 0 (target_word self) (display_word self) with
        | (Raise e, display) => (Raise e, set_display_word display self)
        | (Return _, display) =>
            let self := set_display_word display self in
            let self :=
              if is_won self then set_game_over true (set_won true self)
              else self in
            (Return true, self)
        end
      else
        let self := set_current_lives (current_lives self - 1) self in
        let self :=
          if current_lives self <=? 0 then set_game_over true self else self in
        (Return false, self).

(** [get_game_status] reads the clock once in [is_time_up] ([now1]) and, in
    its last branch, once more in [get_remaining_time] ([now2]). *)
Definition get_game_status (now1 now2 : Q) (self : HangmanGame) : string :=
  if won self then
    "Congratulations! You guessed the word: '" +:+ target_word self +:+ "'"
  else if is_time_up now1 self then
    "Time's up! The answer was: '" +:+ target_word self +:+ "'"
  else if current_lives self <=? 0 then
    "Game over! The answer was: '" +:+ target_word self +:+ "'"
  else
    let remaining_time := int_of (get_remaining_time now2 self) in
    "Time remaining: " +:+ str_of_int remaining_time +:+ " seconds".

Definition reset_game (r : nat) (self : HangmanGame)
  : outcome unit * HangmanGame :=
  let self := set_current_lives (max_lives self) self in
  let self := set_guessed_letters ∅ self in
  let self := set_game_over false self in
  let self := set_won false self in
  let self := set_start_time 0%Q self in
  _select_target r self.

(** ** Runs of the game *)

(** The states a caller can bring the object to through its public methods:
    construction, then any sequence of [start_timer], [make_guess] (whatever
    it returns or raises) and successful [reset_game]. *)
Inductive reachable : HangmanGame → Prop :=
| reach_init fs r lvl self :
    __init__ fs r lvl = Return self → reachable self
| reach_start_timer now self :
    reachable self → reachable (start_timer now self)
| reach_make_guess letter self :
    reachable self → reachable (snd (make_guess letter self))
| reach_reset_game r self :
    reachable self → reachable (snd (reset_game r self)).

(** ** Vocabulary of the properties *)

(** "Exactly one alphabetic character". *)
Definition single_alpha (letter : string) : bool :=
  match letter with
  | String c EmptyString => char_isalpha c
  | _ => false
  end.

(** The characters of a string, in order. *)
Fixpoint chars (s : string) : list ascii :=
  match s with
  | EmptyString => []
  | String c s' => c :: chars s'
  end.

(** What a position of the pattern shows for the character [c] of the target
    once the letters [guessed] have been tried: the placeholder while [c] is
    an alphabetic character nobody has guessed, [c] itself otherwise. *)
Definition slot (guessed : gset string) (c : ascii) : string :=
  if char_isalpha c && bool_decide (String c EmptyString ∉ guessed)
  then "_" else String c EmptyString.

Definition pattern (guessed : gset string) (target : string) : list string :=
  slot guessed <$> chars target.

(** The target has a letter to guess. *)
Definition has_letter (target : string) : bool :=
  existsb char_isalpha (chars target).

(** The two effects a guess can have. *)
Definition life_lost (self self' : HangmanGame) : Prop :=
  current_lives self' = current_lives self - 1.

Definition newly_revealed (self self' : HangmanGame) : Prop :=
  ∃ i shown, display_word self !! i = Some "_"
    ∧ display_word self' !! i = Some shown ∧ shown ≠ "_".

(** A masked position: its slot of [display_word] does not show the character
    the target has there.  (A character that is not a letter is shown from
    the start, an underscore of the target included.) *)
Definition masked (self : HangmanGame) (i : nat) : Prop :=
  ∃ c, chars (target_word self) !! i = Some c
       ∧ display_word self !! i ≠ Some (String c EmptyString).

(** The four reports of [get_game_status]. *)
Definition victory_report (target : string) : string :=
  "Congratulations! You guessed the word: '" +:+ target +:+ "'".
Definition time_up_report (target : string) : string :=
  "Time's up! The answer was: '" +:+ target +:+ "'".
Definition loss_report (target : string) : string :=
  "Game over! The answer was: '" +:+ target +:+ "'".
Definition time_report (seconds : Z) : string :=
  "Time remaining: " +:+ str_of_int seconds +:+ " seconds".

(** The two rejections of [make_guess]. *)
Definition InvalidInput : exn := ValueError "Please enter a single letter".
Definition DuplicateGuess (letter : string) : exn :=
  ValueError ("Letter '" +:+ letter +:+ "' has already been guessed").

(** The object after an accepted guess of [letter] (already lowercased) that
    is in the target, and after one that is not. *)
Definition after_hit (letter : string) (self : HangmanGame) : HangmanGame :=
  let self := set_guessed_letters ({[letter]} ∪ guessed_letters self) self in
  let self :=
    set_display_word (pattern (guessed_letters self) (target_word self)) self in
  if is_won self then set_game_over true (set_won true self) else self.

Definition after_miss (letter : string) (self : HangmanGame) : HangmanGame :=
  let self := set_guessed_letters ({[letter]} ∪ guessed_letters self) self in
  let self := set_current_lives (current_lives self - 1) self in
  if current_lives self <=? 0 then set_game_over true self else self.

(** The attributes as [__init__] assigns them before it selects a target. *)
Definition blank (lvl : GameLevel) (words : list string) : HangmanGame :=
  {| level := lvl; max_lives := 6; current_lives := 6; time_limit := 15;
     guessed_letters := ∅; game_over := false; won := false;
     target_word := ""; display_word := []; start_time := 0%Q;
     dictionary := words |}.

(** The object after [_select_target] has picked [target]. *)
Definition with_target (target : string) (self : HangmanGame) : HangmanGame :=
  set_display_word (pattern ∅ target) (set_target_word target self).

(** What holds of the object between any two calls of its public methods. *)
Record consistent (self : HangmanGame) : Prop := {
  cons_display :
    display_word self = pattern (guessed_letters self) (target_word self);
  cons_guessed :
    ∀ letter, letter ∈ guessed_letters self → single_alpha letter = true;
  cons_max_lives : max_lives self = 6;
  cons_time_limit : time_limit self = 15;
  cons_lives_le : current_lives self ≤ 6;
  cons_lost : current_lives self ≤ 0 → game_over self = true;
  cons_won : won self = true → is_won self = true ∧ game_over self = true;
  cons_won_back :
    has_letter (target_word self) = true → is_won self = true → won self = true;
  cons_target : target_word self ∈ dictionary self
}.

(** Runs in which the caller asks [is_game_over] before every guess and
    guesses only when the answer is no, as [main] does. *)
Inductive guarded : HangmanGame → Prop :=
| guarded_init fs r lvl self :
    __init__ fs r lvl = Return self → guarded self
| guarded_start_timer now self :
    guarded self → guarded (start_timer now self)
| guarded_make_guess now letter self :
    guarded self → is_game_over now self = false →
    guarded (snd (make_guess letter self))
| guarded_reset_game r self :
    guarded self → guarded (snd (reset_game r self)).

(** ** Building concrete runs *)

Definition only (lines : list string) : files := λ _, Some lines.

(** The line terminator [readlines()] leaves at the end of a line. *)
Definition nl : string := String (chr 10) EmptyString.

(** The object [HangmanGame(lvl)] constructs when the dictionary file holds
    [lines] and the generator draws 0. *)
Definition new_game (lvl : GameLevel) (lines : list string) : HangmanGame :=
  match __init__ (only lines) 0 lvl with
  | Return self => self
  | Raise _ => blank lvl []
  end.

Definition guesses (letters : list string) (self : HangmanGame) : HangmanGame :=
  foldl (λ self letter, snd (make_guess letter self)) self letters.

(** Whether the caller's check lets every guess of the list through: before
    each one, [is_game_over] read at the clock value [now] answers no. *)
Fixpoint all_allowed (now : Q) (letters : list string) (self : HangmanGame)
  : bool :=
  match letters with
  | [] => true
  | letter :: letters =>
      negb (is_game_over now self)
      && all_allowed now letters (snd (make_guess letter self))
  end.

(** ** The drawing *)

From stdpp Require sorting.

(** The character the source writes as an escaped backslash. *)
Definition backslash : string := String (chr 92) EmptyString.

Definition _get_body_part (self : HangmanGame) : string :=
  let lives_lost := max_lives self - current_lives self in
  if 3 <=? lives_lost then "  | /|" +:+ backslash
  else if 2 <=? lives_lost then "  | /|"
  else if 1 <=? lives_lost then "  |  |"
  else "  |   ".

Definition _get_legs_part (self : HangmanGame) : string :=
  let lives_lost := max_lives self - current_lives self in
  if 5 <=? lives_lost then "  | / " +:+ backslash
  else if 4 <=? lives_lost then "  | /"
  else if 1 <=? lives_lost then "  |"
  else "  |   ".

(** [sorted(l)] for a list of strings: ascending in the order of [str],
    which compares code point by code point. *)
Definition sorted (l : list string) : list string :=
  sorting.merge_sort String.le l.

(** The six lines of the figure, before they are joined. *)
Definition hangman_parts (self : HangmanGame) : list string :=
  [ "  ____";
    "  |  |";
    if 1 <=? max_lives self - current_lives self then "  |  O" else "  |   ";
    _get_body_part self;
    _get_legs_part self;
    "__|__" ].

(** The list comprehension of [get_hangman_drawing]; the order in which the
    set is traversed matters to nothing that is done with the list. *)
Definition wrong_guesses (self : HangmanGame) : list string :=
  filter (λ letter, str_in letter (target_word self) = false)
    (elements (guessed_letters self)).

Definition get_hangman_drawing (self : HangmanGame) : string :=
  let drawing := str_join nl (hangman_parts self) in
  let drawing :=
    drawing +:+ nl +:+ nl +:+ "Lives remaining: "
    +:+ str_of_int (current_lives self) in
  let drawing :=
    match wrong_guesses self with
    | [] => drawing
    | _ =>
        drawing +:+ nl +:+ "Wrong guesses: "
        +:+ str_join ", " (sorted (wrong_guesses self))
    end in
  drawing.

(** ** More vocabulary *)

(** The guessed letters that are not in the target, as a set. *)
Definition misses (self : HangmanGame) : gset string :=
  filter (λ letter, str_in letter (target_word self) = false)
    (guessed_letters self).

(** The attributes as [reset_game] assigns them before it selects a target. *)
Definition cleared (self : HangmanGame) : HangmanGame :=
  set_start_time 0%Q (set_won false (set_game_over false
    (set_guessed_letters ∅ (set_current_lives (max_lives self) self)))).

(** The path [_load_dictionary] opens for a level. *)
Definition dictionary_path (lvl : GameLevel) : string :=
  match lvl with
  | BASIC => "data/words.txt"
  | INTERMEDIATE => "data/phrases.txt"
  end.

(** A string that [strip()] would leave alone: it neither starts nor ends
    with a whitespace character. *)
Fixpoint last_char (c : ascii) (s : string) : ascii :=
  match s with
  | EmptyString => c
  | String c' s' => last_char c' s'
  end.

Definition trimmed (s : string) : bool :=
  match s with
  | EmptyString => true
  | String c s' => negb (char_isspace c) && negb (char_isspace (last_char c s'))
  end.

(** A string [lower()] would leave alone. *)
Definition lowered (s : string) : bool :=
  all_chars (λ c, bool_decide (char_lower c = c)) s.

(** The one-letter guesses that spell a target, character by character. *)
Definition spell_chars (cs : list ascii) : list string :=
  (λ c, String c EmptyString) <$> cs.

Definition spell (target : string) : list string :=
  spell_chars (chars target).

(** The figure of an object with six lives at most and [lives] of them
    left. *)
Definition figure_at (lives : Z) : list string :=
  hangman_parts (set_current_lives lives (blank BASIC [])).

(** ** The program *)

(** What a call of [input()] meets: a line typed (without its line end),
    an interrupt from the keyboard, or the end of the input. *)
Inductive keyboard : Type :=
| Line (text : string)
| CtrlC
| EndOfInput.

(** What the program writes: [print(text)], and the prompt of an
    [input(text)]. *)
Inductive shown : Type :=
| Printed (text : string)
| Prompted (text : string).

(** How a run ends: [main] returns; an exception nothing catches leaves it;
    or the typed lines are used up and the program waits at a prompt. *)
Inductive uncaught : Type :=
| KeyboardInterrupt
| EOFError
| Escaped (e : exn).

Inductive ending : Type :=
| Returned
| Died (e : uncaught)
| AwaitingInput.

(** The readings of the clock in one turn of the game loop, one for each
    place where the loop body may read it. *)
Record readings : Type := {
  at_start_timer : Q;
  at_status : Q * Q;
  at_is_game_over : Q;
  at_is_time_up : Q;
  at_late_status : Q * Q
}.

(** The loop of [main] that asks for the level. *)
Fixpoint choose_level (keys : list keyboard)
  : list shown * (ending + GameLevel) * list keyboard :=
  let ask := Prompted "Enter your choice (1 or 2): " in
  match keys with
  | [] => ([ask], inl AwaitingInput, [])
  | Line text :: keys =>
      let choice := str_strip text in
      if decide (choice = "1") then ([ask], inr BASIC, keys)
      else if decide (choice = "2") then ([ask], inr INTERMEDIATE, keys)
      else
        let '(out, result, keys) := choose_level keys in
        (ask :: Printed "Please enter 1 or 2" :: out, result, keys)
  | CtrlC :: keys => ([ask; Printed (nl +:+ "Goodbye!")], inl Returned, keys)
  | EndOfInput :: keys => ([ask], inl (Died EOFError), keys)
  end.

(** The game loop of [main], from its turn number [n] on: what it writes,
    how it ends, and the game object at that point.  Turn [n] reads the
    clock values [clock n] and, if it resets the game, the draw [draws n]. *)
Fixpoint play (clock : nat → readings) (draws : nat → nat) (n : nat)
    (keys : list keyboard) (game : HangmanGame) {struct keys}
  : list shown * ending * HangmanGame :=
  let t := clock n in
  let game := start_timer (at_start_timer t) game in
  let top :=
    [ Printed (nl +:+ get_hangman_drawing game);
      Printed ("Word: " +:+ get_display_string game);
      Printed (get_game_status (at_status t).1 (at_status t).2 game) ] in
  if is_game_over (at_is_game_over t) game then
    let ask := Prompted (nl +:+ "Would you like to play again? (y/n): ") in
    match keys with
    | [] => (top ++ [ask], AwaitingInput, game)
    | Line play_again :: keys =>
        if decide (str_lower (str_strip play_again) = "y") then
          match reset_game (draws n) game with
          | (Return _, game) =>
              let '(out, e, game) := play clock draws (S n) keys game in
              (top ++ ask :: out, e, game)
          | (Raise e, game) => (top ++ [ask], Died (Escaped e), game)
          end
        else (top ++ [ask; Printed "Thanks for playing!"], Returned, game)
    | CtrlC :: _ => (top ++ [ask], Died KeyboardInterrupt, game)
    | EndOfInput :: _ => (top ++ [ask], Died EOFError, game)
    end
  else
    let ask := Prompted "Enter a letter: " in
    match keys with
    | [] => (top ++ [ask], AwaitingInput, game)
    | Line text :: keys =>
        let guess := str_strip text in
        if is_time_up (at_is_time_up t) game then
          let late :=
            Printed (get_game_status (at_late_status t).1 (at_late_status t).2
                     game) in
          let '(out, e, game) := play clock draws (S n) keys game in
          (top ++ ask :: late :: out, e, game)
        else
          match make_guess guess game with
          | (Return result, game) =>
              let said :=
                if result
                then Printed ("Good guess! '" +:+ guess +:+ "' is in the word.")
                else Printed ("Sorry, '" +:+ guess +:+ "' is not in the word.") in
              let '(out, e, game) := play clock draws (S n) keys game in
              (top ++ ask :: said :: out, e, game)
          | (Raise (ValueError msg), game) =>
              let said := Printed ("Invalid input: " +:+ msg) in
              let '(out, e, game) := play clock draws (S n) keys game in
              (top ++ ask :: said :: out, e, game)
          | (Raise e, game) => (top ++ [ask], Died (Escaped e), game)
          end
    | CtrlC :: _ =>
        (top ++ [ask; Printed (nl +:+ "Thanks for playing!")], Returned, game)
    | EndOfInput :: _ => (top ++ [ask], Died EOFError, game)
    end.

(** [main()]: [fs] is what the files hold, [r] the draw of the constructor;
    the game object is there once it has been constructed. *)
Definition main (fs : files) (r : nat) (clock : nat → readings)
    (draws : nat → nat) (keys : list keyboard)
  : list shown * ending * option HangmanGame :=
  let welcome :=
    [ Printed "Welcome to Hangman Game!";
      Printed "Choose difficulty level:";
      Printed "1. Basic (single words)";
      Printed "2. Intermediate (phrases)" ] in
  match choose_level keys with
  | (out, inl e, _) => (welcome ++ out, e, None)
  | (out, inr lvl, keys) =>
      match __init__ fs r lvl with
      | Raise e => (welcome ++ out, Died (Escaped e), None)
      | Return game =>
          let '(out', e, game) := play clock draws 0 keys game in
          (welcome ++ out ++ out', e, Some game)
      end
  end.

(** A clock that reads [s] when turn [n] starts its timer and [s + d] at
    every later reading of the turn, where [(s, d) = pace n]. *)
Definition steady (pace : nat → Q * Q) (n : nat) : readings :=
  let '(s, d) := pace n in
  {| at_start_timer := s;
     at_status := ((s + d)%Q, (s + d)%Q);
     at_is_game_over := (s + d)%Q;
     at_is_time_up := (s + d)%Q;
     at_late_status := ((s + d)%Q, (s + d)%Q) |}.

(** Every reading of a turn is less than 15 seconds after the turn's
    [start_timer()], which does not read 0. *)
Definition in_time (t : readings) : Prop :=
  ¬ (at_start_timer t == 0)%Q
  ∧ ((at_status t).1 - at_start_timer t < 15)%Q
  ∧ (at_is_game_over t - at_start_timer t < 15)%Q
  ∧ (at_is_time_up t - at_start_timer t < 15)%Q
  ∧ ((at_late_status t).1 - at_start_timer t < 15)%Q.

(** Anything written but the report that the time is up. *)
Definition not_time_up (x : shown) : Prop :=
  ∀ target, x ≠ Printed (time_up_report target).

(** * Properties *)

(** ** A few runs, evaluated *)

Example cat_three_hits :
  let g := guesses ["c"; "a"; "t"] (new_game BASIC ["cat" +:+ nl]) in
  display_word g = ["c"; "a"; "t"] ∧ won g = true ∧ game_over g = true
  ∧ current_lives g = 6.
Proof. vm_compute. done. Qed.

Example cat_six_misses :
  let g := guesses ["x"; "y"; "z"; "w"; "v"; "u"] (new_game BASIC ["cat"]) in
  current_lives g = 0 ∧ game_over g = true ∧ won g = false
  ∧ get_display_string g = "_ _ _".
Proof. vm_compute. done. Qed.

Example apple_upper_case_guess :
  let g := new_game BASIC ["  Apple " +:+ nl] in
  target_word g = "apple"
  ∧ fst (make_guess "P" g) = Return true
  ∧ get_display_string (snd (make_guess "P" g)) = "_ p p _ _"
  ∧ fst (make_guess "123" g) = Raise (ValueError "Please enter a single letter")
  ∧ fst (make_guess "a" (snd (make_guess "A" g)))
    = Raise (ValueError "Letter 'a' has already been guessed").
Proof. vm_compute. done. Qed.

Example fallback_when_no_file :
  _load_dictionary (λ _, None) BASIC = fallback_words
  ∧ _load_dictionary (λ _, None) INTERMEDIATE = fallback_phrases.
Proof. done. Qed.

Example status_examples :
  let g := new_game BASIC ["cat"] in
  get_game_status 100 100 g = "Time remaining: 15 seconds"
  ∧ get_game_status 100 (207 # 2) (start_timer 100 g) = "Time remaining: 11 seconds"
  ∧ get_game_status 116 116 (start_timer 100 g) = "Time's up! The answer was: 'cat'"
  ∧ get_game_status 116 116 (guesses ["c"; "a"; "t"] (start_timer 100 g))
    = "Congratulations! You guessed the word: 'cat'".
Proof. vm_compute. done. Qed.

Example apple_display :
  let g := new_game BASIC ["apple"] in
  get_display_string g = "_ _ _ _ _"
  ∧ get_display_string (guesses ["a"] g) = "a _ _ _ _"
  ∧ current_lives (guesses ["a"] g) = 6
  ∧ current_lives (guesses ["z"] g) = 5.
Proof. vm_compute. done. Qed.

Example phrase_keeps_its_space :
  get_display_string (guesses ["h"] (new_game INTERMEDIATE ["hello world"]))
  = "h _ _ _ _   _ _ _ _ _".
Proof. vm_compute. done. Qed.

Example draw_selects_the_candidate :
  (∃ self, __init__ (only ["cat"; "lion"; "owl"]) 4 BASIC = Return self
           ∧ target_word self = "lion")
  ∧ __init__ (only []) 4 BASIC = Raise IndexError.
Proof. split; [eexists; split|]; vm_compute; done. Qed.

(** ** Characters and strings *)

Ltac by_cases_on_char c :=
  destruct c as [[] [] [] [] [] [] [] []]; vm_compute; congruence.

Lemma char_lower_isalpha c : char_isalpha (char_lower c) = char_isalpha c.
Proof. by_cases_on_char c. Qed.

Lemma char_lower_not_alpha c : char_isalpha c = false → char_lower c = c.
Proof. by_cases_on_char c. Qed.

Lemma char_lower_idemp c : char_lower (char_lower c) = char_lower c.
Proof. by_cases_on_char c. Qed.

Lemma placeholder_not_alpha c : char_isalpha c = true → c ≠ "_"%char.
Proof. intros H ->. vm_compute in H. congruence. Qed.

Lemma validation_single_alpha letter :
  negb (String.length letter =? 1)%nat || negb (str_isalpha letter)
  = negb (single_alpha letter).
Proof.
  destruct letter as [|c [|d s]]; simpl; try done.
  by rewrite andb_true_r.
Qed.

Lemma single_alpha_inv letter :
  single_alpha letter = true →
  ∃ c, letter = String c EmptyString ∧ char_isalpha c = true.
Proof. destruct letter as [|c [|d s]]; simpl; try done. eauto. Qed.

Lemma single_alpha_lower letter :
  single_alpha (str_lower letter) = single_alpha letter.
Proof.
  destruct letter as [|c [|d s]]; simpl; try done.
  apply char_lower_isalpha.
Qed.

Lemma prefix_single c s :
  String.prefix (String c EmptyString) s = true ↔ ∃ s', s = String c s'.
Proof.
  destruct s as [|a s]; simpl.
  - split; [done | intros [? ?]; done].
  - destruct (ascii_dec c a) as [->|Hne].
    + split; [eauto | intros _; by destruct s].
    + split; [done | intros [? [= ? ?]]; done].
Qed.

Lemma str_in_single c s :
  str_in (String c EmptyString) s = true ↔ c ∈ chars s.
Proof.
  induction s as [|a s IH].
  - simpl. split; [done | by intros ?%elem_of_nil].
  - change (str_in (String c EmptyString) (String a s))
      with (String.prefix (String c EmptyString) (String a s)
            || str_in (String c EmptyString) s).
    rewrite orb_true_iff, prefix_single, IH. simpl. rewrite elem_of_cons.
    split.
    + intros [[s' [= -> _]]|?]; auto.
    + intros [->|?]; eauto.
Qed.

Lemma prefix_app s t : String.prefix s (s +:+ t) = true.
Proof.
  induction s as [|a s IH]; simpl; [by destruct t|].
  unfold String.app; simpl. by destruct (ascii_dec a a).
Qed.

Lemma str_in_app_r a s t : str_in s t = true → str_in s (a +:+ t) = true.
Proof.
  intros H. induction a as [|c a IH]; [done|].
  change (String c a +:+ t) with (String c (a +:+ t)).
  simpl. rewrite IH. apply orb_true_r.
Qed.

Lemma str_in_middle a s b : str_in s (a +:+ s +:+ b) = true.
Proof.
  apply str_in_app_r. destruct s; simpl; [by destruct b|].
  unfold String.app; simpl. destruct (ascii_dec _ _); [|done].
  fold String.append.
  by rewrite prefix_app.
Qed.

(** ** The pattern *)

Lemma mask_pattern target display :
  mask target display = display ++ pattern ∅ target.
Proof.
  revert display. induction target as [|c rest IH]; intros display.
  - by rewrite app_nil_r.
  - simpl. unfold pattern; simpl. fold (pattern ∅ rest).
    unfold slot at 1. rewrite bool_decide_true by set_solver.
    rewrite andb_true_r.
    destruct (char_isalpha c); rewrite IH, <- app_assoc; done.
Qed.

Lemma length_pattern guessed target :
  length (pattern guessed target) = String.length target.
Proof.
  unfold pattern. rewrite length_fmap.
  induction target; simpl; congruence.
Qed.

Lemma slot_other guessed letter c :
  String c EmptyString ≠ letter →
  slot ({[letter]} ∪ guessed) c = slot guessed c.
Proof.
  intros Hne. unfold slot.
  rewrite (bool_decide_ext (String c EmptyString ∉ {[letter]} ∪ guessed)
             (String c EmptyString ∉ guessed)); [done|].
  rewrite not_elem_of_union, not_elem_of_singleton. tauto.
Qed.

Lemma slot_same guessed c :
  slot ({[String c EmptyString]} ∪ guessed) c = String c EmptyString.
Proof.
  unfold slot. rewrite bool_decide_false by set_solver.
  by rewrite andb_false_r.
Qed.

Lemma pattern_cons guessed c rest :
  pattern guessed (String c rest) = slot guessed c :: pattern guessed rest.
Proof. done. Qed.

Lemma reveal_cons letter i c rest display :
  reveal letter i (String c rest) display
  = if decide (String c EmptyString = letter) then
      match setitem display i letter with
      | Return display' => reveal letter (S i) rest display'
      | Raise e => (Raise e, display)
      end
    else reveal letter (S i) rest display.
Proof. done. Qed.

Lemma setitem_middle {A} (l1 l2 : list A) (x y : A) :
  setitem (l1 ++ x :: l2) (length l1) y = Return ((l1 ++ [y]) ++ l2).
Proof.
  unfold setitem. rewrite decide_True by (rewrite length_app; simpl; lia).
  rewrite insert_app_r_alt, Nat.sub_diag by lia.
  by rewrite <- app_assoc.
Qed.

Lemma length_snoc {A} (l : list A) (x : A) : S (length l) = length (l ++ [x]).
Proof. rewrite length_app. simpl. lia. Qed.

(** The loop of [make_guess] never fails on a pattern of the target's length,
    and leaves the pattern of the enlarged set of guesses. *)
Lemma reveal_pattern letter guessed target done_ :
  reveal letter (length done_) target (done_ ++ pattern guessed target)
  = (Return (), done_ ++ pattern ({[letter]} ∪ guessed) target).
Proof.
  revert done_. induction target as [|c rest IH]; intros done_; [done|].
  rewrite reveal_cons, !pattern_cons.
  destruct (decide (String c EmptyString = letter)) as [<-|Hne].
  - rewrite setitem_middle, slot_same, (length_snoc _ (String c EmptyString)).
    rewrite IH. by rewrite <- app_assoc.
  - rewrite slot_other by done.
    rewrite (length_snoc _ (slot guessed c)).
    rewrite (cons_middle (slot guessed c) done_ (pattern guessed rest)), app_assoc.
    rewrite IH. by rewrite <- app_assoc.
Qed.

Lemma pattern_miss letter guessed target :
  str_in letter target = false →
  pattern ({[letter]} ∪ guessed) target = pattern guessed target.
Proof.
  intros Hmiss. unfold pattern. apply list_fmap_ext.
  intros i c Hc. apply slot_other. intros <-.
  assert (str_in (String c EmptyString) target = true); [|congruence].
  apply str_in_single. by eapply list_elem_of_lookup_2.
Qed.

Lemma slot_placeholder guessed c :
  slot guessed c = "_" ↔
  (char_isalpha c = true ∧ String c EmptyString ∉ guessed) ∨ c = "_"%char.
Proof.
  unfold slot. destruct (char_isalpha c) eqn:Ha; simpl.
  - case_bool_decide.
    + split; [auto | done].
    + split; [intros [= ->]; by right |].
      intros [[_ ?]| ->]; [done | vm_compute in Ha; done].
  - split; [intros [= ->]; by right |].
    intros [[? _]| ->]; done.
Qed.

(** A hit with a fresh letter uncovers a position that was masked. *)
Lemma pattern_hit c guessed target :
  char_isalpha c = true → String c EmptyString ∉ guessed →
  str_in (String c EmptyString) target = true →
  ∃ i, pattern guessed target !! i = Some "_"
       ∧ pattern ({[String c EmptyString]} ∪ guessed) target !! i
         = Some (String c EmptyString).
Proof.
  intros Ha Hfresh Hin. apply str_in_single in Hin.
  apply list_elem_of_lookup_1 in Hin as [i Hi]. exists i.
  unfold pattern. rewrite !list_lookup_fmap, Hi. simpl.
  rewrite slot_same. split; [|done]. f_equal.
  apply slot_placeholder. auto.
Qed.

(** ** What each method does *)

Lemma make_guess_invalid letter self :
  single_alpha letter = false →
  make_guess letter self = (Raise InvalidInput, self).
Proof.
  intros H. unfold make_guess. by rewrite validation_single_alpha, H.
Qed.

Lemma make_guess_duplicate letter self :
  single_alpha letter = true →
  str_lower letter ∈ guessed_letters self →
  make_guess letter self = (Raise (DuplicateGuess (str_lower letter)), self).
Proof.
  intros H Hin. unfold make_guess. rewrite validation_single_alpha, H. simpl.
  by rewrite decide_True.
Qed.

Lemma make_guess_miss letter self :
  single_alpha letter = true →
  str_lower letter ∉ guessed_letters self →
  str_in (str_lower letter) (target_word self) = false →
  make_guess letter self = (Return false, after_miss (str_lower letter) self).
Proof.
  intros H Hfresh Hmiss. unfold make_guess.
  rewrite validation_single_alpha, H. simpl.
  rewrite decide_False by done. by rewrite Hmiss.
Qed.

Lemma make_guess_hit letter self :
  display_word self = pattern (guessed_letters self) (target_word self) →
  single_alpha letter = true →
  str_lower letter ∉ guessed_letters self →
  str_in (str_lower letter) (target_word self) = true →
  make_guess letter self = (Return true, after_hit (str_lower letter) self).
Proof.
  intros Hd H Hfresh Hhit. unfold make_guess.
  rewrite validation_single_alpha, H. simpl.
  rewrite decide_False by done. rewrite Hhit, Hd.
  pose proof (reveal_pattern (str_lower letter) (guessed_letters self)
                (target_word self) []) as Hr.
  simpl in Hr. by rewrite Hr.
Qed.

Lemma select_target_empty r self :
  dictionary self = [] → _select_target r self = (Raise IndexError, self).
Proof. intros H. unfold _select_target. by rewrite H. Qed.

Lemma select_target_pick r self :
  dictionary self ≠ [] →
  ∃ target, target ∈ dictionary self
    ∧ dictionary self !! (r mod length (dictionary self))%nat = Some target
    ∧ _select_target r self = (Return (), with_target target self).
Proof.
  intros Hne. unfold _select_target.
  destruct (dictionary self) as [|x l] eqn:Hdict; [done|].
  assert (r mod length (x :: l) < length (x :: l))%nat as Hlt
    by (apply Nat.mod_upper_bound; simpl; lia).
  destruct (lookup_lt_is_Some_2 _ _ Hlt) as [target Ht].
  exists target. split; [by eapply list_elem_of_lookup_2|]. split; [done|].
  unfold random_choice.
  rewrite (nth_lookup_Some _ _ x target Ht).
  unfold with_target. simpl. by rewrite mask_pattern.
Qed.

(** ** The pattern and winning *)

Lemma is_won_display self :
  is_won self = true ↔ "_" ∉ display_word self.
Proof. unfold is_won. apply bool_decide_eq_true. Qed.

Lemma placeholder_shrinks letter guessed target :
  "_" ∈ pattern ({[letter]} ∪ guessed) target → "_" ∈ pattern guessed target.
Proof.
  unfold pattern. rewrite !list_elem_of_fmap.
  intros (c & Hc & Hin). exists c. split; [|done].
  symmetry in Hc. apply slot_placeholder in Hc. symmetry.
  apply slot_placeholder. destruct Hc as [[? ?%not_elem_of_union]|?]; [|auto].
  left. tauto.
Qed.

Lemma has_letter_masked target :
  has_letter target = true → "_" ∈ pattern ∅ target.
Proof.
  unfold has_letter. rewrite existsb_exists. intros (c & Hin & Ha).
  apply list_elem_of_fmap. exists c. split; [|by apply list_elem_of_In].
  symmetry. apply slot_placeholder. left. split; [done | set_solver].
Qed.

(** ** The invariant *)

Lemma consistent_with_target target self :
  target ∈ dictionary self →
  max_lives self = 6 → time_limit self = 15 → current_lives self = 6 →
  guessed_letters self = ∅ → won self = false →
  consistent (with_target target self).
Proof.
  intros Hin Hmax Hlimit Hlives Hguessed Hwon.
  split; simpl; try done.
  - by rewrite Hguessed.
  - rewrite Hguessed. intros letter ?%not_elem_of_empty. done.
  - lia.
  - lia.
  - by rewrite Hwon.
  - intros Hletter Hw%is_won_display. simpl in Hw.
    destruct Hw. by apply has_letter_masked.
Qed.

Lemma init_blank fs r lvl :
  __init__ fs r lvl
  = match _select_target r (blank lvl (_load_dictionary fs lvl)) with
    | (Raise e, _) => Raise e
    | (Return _, self) => Return self
    end.
Proof. done. Qed.

Lemma init_empty fs r lvl :
  _load_dictionary fs lvl = [] → __init__ fs r lvl = Raise IndexError.
Proof.
  intros He. rewrite init_blank.
  by rewrite (select_target_empty r (blank lvl (_load_dictionary fs lvl)) He).
Qed.

Lemma init_pick fs r lvl :
  _load_dictionary fs lvl ≠ [] →
  ∃ target, target ∈ _load_dictionary fs lvl
    ∧ _load_dictionary fs lvl !! (r mod length (_load_dictionary fs lvl))%nat
      = Some target
    ∧ __init__ fs r lvl
      = Return (with_target target (blank lvl (_load_dictionary fs lvl))).
Proof.
  intros Hne. rewrite init_blank.
  destruct (select_target_pick r (blank lvl (_load_dictionary fs lvl)) Hne)
    as (target & Hin & Hl & ->).
  by exists target.
Qed.

Lemma init_inv fs r lvl self :
  __init__ fs r lvl = Return self →
  ∃ target, target ∈ _load_dictionary fs lvl
    ∧ self = with_target target (blank lvl (_load_dictionary fs lvl)).
Proof.
  intros Hi. destruct (decide (_load_dictionary fs lvl = [])) as [He|Hne].
  - by rewrite init_empty in Hi.
  - destruct (init_pick fs r lvl Hne) as (target & Hin & _ & Hs).
    exists target. split; [done|]. congruence.
Qed.

Lemma consistent_init fs r lvl self :
  __init__ fs r lvl = Return self → consistent self.
Proof.
  intros (target & Hin & ->)%init_inv. by apply consistent_with_target.
Qed.

Lemma consistent_dictionary self : consistent self → dictionary self ≠ [].
Proof.
  intros [_ _ _ _ _ _ _ _ Hin] He. rewrite He in Hin.
  by apply elem_of_nil in Hin.
Qed.

Lemma reset_game_pick r self :
  dictionary self ≠ [] →
  ∃ target, target ∈ dictionary self
    ∧ dictionary self !! (r mod length (dictionary self))%nat = Some target
    ∧ reset_game r self
      = (Return (),
         with_target target
           (set_start_time 0%Q (set_won false (set_game_over false
              (set_guessed_letters ∅
                 (set_current_lives (max_lives self) self)))))).
Proof.
  intros Hne. unfold reset_game.
  set (self1 := set_start_time _ _).
  destruct (select_target_pick r self1 Hne) as (target & Hin & Hl & ->).
  by exists target.
Qed.

Lemma consistent_reset_game r self :
  consistent self → consistent (snd (reset_game r self)).
Proof.
  intros Hc.
  destruct (reset_game_pick r self (consistent_dictionary _ Hc))
    as (target & Hin & _ & ->).
  simpl. apply consistent_with_target; simpl; try done; apply Hc.
Qed.

Lemma consistent_start_timer now self :
  consistent self → consistent (start_timer now self).
Proof. intros []. by split. Qed.

Lemma consistent_after_miss letter self :
  single_alpha letter = true →
  str_in letter (target_word self) = false →
  consistent self → consistent (after_miss letter self).
Proof.
  intros Hl Hmiss [Hd Hg Hmax Hlimit Hle Hlost Hwon Hback Hin].
  assert (display_word self
          = pattern ({[letter]} ∪ guessed_letters self) (target_word self))
    as Hd' by (by rewrite pattern_miss).
  unfold after_miss. simpl.
  destruct (current_lives self - 1 <=? 0) eqn:Hz; split; simpl; try done.
  - intros x [->%elem_of_singleton|?]%elem_of_union; auto.
  - lia.
  - intros Hw. by destruct (Hwon Hw).
  - intros x [->%elem_of_singleton|?]%elem_of_union; auto.
  - lia.
  - intros ?. apply Z.leb_gt in Hz. lia.
Qed.

Lemma consistent_after_hit letter self :
  single_alpha letter = true →
  consistent self → consistent (after_hit letter self).
Proof.
  intros Hl [Hd Hg Hmax Hlimit Hle Hlost Hwon Hback Hin].
  unfold after_hit. simpl.
  match goal with |- context [is_won ?s] => destruct (is_won s) eqn:Hw end;
    split; simpl; try done.
  - intros x [->%elem_of_singleton|?]%elem_of_union; auto.
  - intros x [->%elem_of_singleton|?]%elem_of_union; auto.
  - intros Hwas. destruct (Hwon Hwas) as [Hwas' _].
    apply is_won_display in Hwas'. rewrite Hd in Hwas'.
    apply not_true_iff_false in Hw. destruct Hw. apply is_won_display. simpl.
    intros ?%placeholder_shrinks. done.
  - intros _ Hw'. unfold is_won in Hw, Hw'. simpl in *. congruence.
Qed.

Lemma consistent_make_guess letter self :
  consistent self → consistent (snd (make_guess letter self)).
Proof.
  intros Hc. destruct (single_alpha letter) eqn:Hl.
  - destruct (decide (str_lower letter ∈ guessed_letters self)) as [Hdup|Hfresh].
    + by rewrite make_guess_duplicate.
    + destruct (str_in (str_lower letter) (target_word self)) eqn:Hin.
      * rewrite make_guess_hit by (done || apply Hc).
        apply consistent_after_hit; [by rewrite single_alpha_lower | done].
      * rewrite make_guess_miss by done.
        apply consistent_after_miss; [by rewrite single_alpha_lower|done..].
  - by rewrite make_guess_invalid.
Qed.

Lemma reachable_consistent self : reachable self → consistent self.
Proof.
  induction 1;
    eauto using consistent_init, consistent_start_timer,
      consistent_make_guess, consistent_reset_game.
Qed.

Lemma guarded_reachable self : guarded self → reachable self.
Proof. induction 1; eauto using reachable. Qed.

Lemma reachable_guesses letters self :
  reachable self → reachable (guesses letters self).
Proof.
  revert self. induction letters as [|letter letters IH]; intros self H; [done|].
  apply IH. by apply reach_make_guess.
Qed.

Lemma reachable_new_game lvl lines :
  lines ≠ [] → reachable (new_game lvl lines).
Proof.
  intros Hne. unfold new_game.
  destruct (__init__ (only lines) 0 lvl) as [self|e] eqn:Hi.
  - by eapply reach_init.
  - exfalso.
    assert (_load_dictionary (only lines) lvl ≠ []) as Hd.
    { unfold _load_dictionary, open, only. destruct lvl; by destruct lines. }
    destruct (init_pick (only lines) 0 lvl Hd) as (target & _ & _ & Hs).
    congruence.
Qed.

Lemma guarded_guesses now letters self :
  guarded self → all_allowed now letters self = true →
  guarded (guesses letters self).
Proof.
  revert self. induction letters as [|letter letters IH]; intros self Hg Ha;
    [done|].
  simpl in Ha. apply andb_true_iff in Ha as [Hover Ha].
  apply negb_true_iff in Hover.
  apply IH; [|done]. by eapply guarded_make_guess.
Qed.

Lemma guarded_new_game lvl lines :
  lines ≠ [] → guarded (new_game lvl lines).
Proof.
  intros Hne. unfold new_game.
  destruct (__init__ (only lines) 0 lvl) as [self|e] eqn:Hi.
  - by eapply guarded_init.
  - exfalso.
    assert (_load_dictionary (only lines) lvl ≠ []) as Hd.
    { unfold _load_dictionary, open, only. destruct lvl; by destruct lines. }
    destruct (init_pick (only lines) 0 lvl Hd) as (target & _ & _ & Hs).
    congruence.
Qed.

(** ** Lives and the game-over flag *)

Lemma make_guess_lives letter self :
  current_lives self - 1 ≤ current_lives (snd (make_guess letter self))
  ≤ current_lives self.
Proof.
  unfold make_guess. repeat case_match; simpl; lia.
Qed.

Lemma make_guess_game_over letter self :
  game_over self = true → game_over (snd (make_guess letter self)) = true.
Proof.
  intros H. unfold make_guess. repeat case_match; simpl; done.
Qed.

Lemma not_over_has_lives now self :
  is_game_over now self = false → 0 < current_lives self.
Proof.
  unfold is_game_over. intros H.
  apply orb_false_iff in H as [_ H]. apply Z.leb_gt in H. lia.
Qed.

Lemma guarded_lives self : guarded self → 0 ≤ current_lives self.
Proof.
  induction 1 as [fs r lvl self Hi|now self _ IH|now letter self _ IH Hover
                 |r self Hg IH].
  - apply init_inv in Hi as (target & _ & ->). simpl. lia.
  - done.
  - pose proof (not_over_has_lives _ _ Hover).
    pose proof (make_guess_lives letter self). lia.
  - apply guarded_reachable, reachable_consistent in Hg.
    destruct (reset_game_pick r self (consistent_dictionary _ Hg))
      as (target & _ & _ & ->).
    simpl. rewrite (cons_max_lives _ Hg). lia.
Qed.

Lemma reset_game_game_over r self : game_over (snd (reset_game r self)) = false.
Proof. unfold reset_game, _select_target. by case_match. Qed.

(** C1, as the spec states it, fails: [make_guess] has no guard of its own,
    so a seventh wrong guess on the target "cat" takes [current_lives] from
    0 to -1 in a state reached through the public methods only. *)
Lemma lives_go_negative_after_seven_misses :
  let g := guesses ["x"; "y"; "z"; "w"; "v"; "u"; "q"] (new_game BASIC ["cat"]) in
  reachable g ∧ current_lives g = -1 ∧ ¬ (0 ≤ current_lives g).
Proof.
  split; [by apply reachable_guesses, reachable_new_game|].
  vm_compute. split; [done|]. intros H. by apply H.
Qed.

(** C1 (amended): [current_lives] is never negative in a run in which every
    guess is made while [is_game_over] answers no (the caller's check in
    [main]); in every reachable state [current_lives <= 0] implies
    [game_over]; and once [game_over] is true, [make_guess] (whatever the
    letter, accepted or rejected) and [start_timer] leave it true, lives
    never going back up, until [reset_game] clears it. *)
Theorem lives_and_game_over :
  (∀ self, guarded self → 0 ≤ current_lives self)
  ∧ (∀ self, reachable self → current_lives self ≤ 0 → game_over self = true)
  ∧ (∀ self, game_over self = true →
       (∀ letter, game_over (snd (make_guess letter self)) = true)
       ∧ (∀ now, game_over (start_timer now self) = true))
  ∧ (∀ self letter,
       current_lives (snd (make_guess letter self)) ≤ current_lives self)
  ∧ (∀ self now, current_lives (start_timer now self) = current_lives self)
  ∧ (∀ self r, game_over (snd (reset_game r self)) = false).
Proof.
  split; [exact guarded_lives|].
  split; [intros self Hr; apply (cons_lost _ (reachable_consistent _ Hr))|].
  split; [intros self H; split; [intros letter; by apply make_guess_game_over
                                | done]|].
  split; [intros self letter; apply make_guess_lives|].
  split; [done|]. intros self r. apply reset_game_game_over.
Qed.

Lemma lives_and_game_over_witness :
  let g := guesses ["x"; "y"; "z"; "w"; "v"; "u"] (new_game BASIC ["cat"]) in
  guarded g
  ∧ 0 ≤ current_lives g ∧ current_lives g ≤ 0 ∧ game_over g = true
  ∧ game_over (snd (make_guess "q" g)) = true
  ∧ game_over (start_timer 5 g) = true
  ∧ game_over (snd (reset_game 0 g)) = false.
Proof.
  intros g.
  assert (guarded g) as Hg.
  { apply (guarded_guesses 0%Q); [by apply guarded_new_game|].
    vm_compute. reflexivity. }
  destruct lives_and_game_over as (Hlives & Hover & Hstays & _ & _ & Hreset).
  assert (current_lives g ≤ 0) as Hz by (vm_compute; discriminate).
  pose proof (Hover g (guarded_reachable g Hg) Hz) as H1.
  destruct (Hstays g H1) as [Hguess Htimer].
  split; [exact Hg|]. split; [exact (Hlives g Hg)|]. split; [exact Hz|].
  split; [exact H1|]. split; [exact (Hguess "q")|].
  split; [exact (Htimer 5%Q)|]. exact (Hreset g 0%nat).
Defined.

(** ** Construction on an empty dictionary *)

(** C2: whatever the level and the generator's draw, when the dictionary
    comes out empty (the file exists and has no line) the constructor raises
    [IndexError], the exception of [random.choice] on an empty sequence, and
    constructs no object. *)
Theorem init_empty_dictionary fs r lvl :
  _load_dictionary fs lvl = [] → __init__ fs r lvl = Raise IndexError.
Proof. apply init_empty. Qed.

Lemma init_empty_dictionary_witness :
  _load_dictionary (only []) BASIC = []
  ∧ __init__ (only []) 3 BASIC = Raise IndexError.
Proof.
  split; [reflexivity|].
  apply (init_empty_dictionary (only []) 3 BASIC). reflexivity.
Defined.

(** Any other dictionary is accepted. *)
Lemma init_returns fs r lvl :
  _load_dictionary fs lvl ≠ [] → ∃ self, __init__ fs r lvl = Return self.
Proof. intros (target & _ & _ & ->)%(init_pick fs r lvl). eauto. Qed.

(** ** Rejected guesses *)

Lemma invalid_not_duplicate letter : InvalidInput ≠ DuplicateGuess letter.
Proof. unfold InvalidInput, DuplicateGuess. discriminate. Qed.

(** C3: in every reachable state [make_guess] raises the [ValueError] for an
    invalid input exactly when [letter] is not one alphabetic character, and,
    for a [letter] that is one alphabetic character, the [ValueError] for a
    duplicate exactly when the lowercased letter is in [guessed_letters]; it
    raises nothing else; whenever it raises, the object is unchanged; and a
    letter that was accepted, hit or miss, is rejected as a duplicate when
    guessed again. *)
Theorem make_guess_rejections self letter :
  reachable self →
  (fst (make_guess letter self) = Raise InvalidInput
   ↔ single_alpha letter = false)
  ∧ (single_alpha letter = true →
     (fst (make_guess letter self) = Raise (DuplicateGuess (str_lower letter))
      ↔ str_lower letter ∈ guessed_letters self))
  ∧ ((∃ e, fst (make_guess letter self) = Raise e)
     ↔ single_alpha letter = false ∨ str_lower letter ∈ guessed_letters self)
  ∧ (∀ e, fst (make_guess letter self) = Raise e →
          snd (make_guess letter self) = self)
  ∧ (∀ hit, fst (make_guess letter self) = Return hit →
            make_guess letter (snd (make_guess letter self))
            = (Raise (DuplicateGuess (str_lower letter)),
               snd (make_guess letter self))).
Proof.
  intros Hc%reachable_consistent.
  pose proof (invalid_not_duplicate (str_lower letter)) as Hne.
  destruct (single_alpha letter) eqn:Hl.
  - destruct (decide (str_lower letter ∈ guessed_letters self)) as [Hdup|Hfresh].
    + rewrite make_guess_duplicate by done. simpl.
      repeat split; eauto; congruence.
    + assert (∃ hit self',
                 make_guess letter self = (Return hit, self')
                 ∧ str_lower letter ∈ guessed_letters self')
        as (hit & self' & -> & Hin).
      { destruct (str_in (str_lower letter) (target_word self)) eqn:Hin.
        - rewrite make_guess_hit by (done || apply Hc).
          eexists _, _. split; [done|]. unfold after_hit.
          case_match; simpl; set_solver.
        - rewrite make_guess_miss by done.
          eexists _, _. split; [done|]. unfold after_miss.
          case_match; simpl; set_solver. }
      simpl. repeat split; try done.
      * by intros [e ?].
      * by intros [?|?].
      * intros _ _. by apply make_guess_duplicate.
  - rewrite make_guess_invalid by done. simpl.
    repeat split; eauto; try congruence; try done.
Qed.

Lemma make_guess_rejections_witness :
  let self := guesses ["a"; "z"] (new_game BASIC ["apple"]) in
  reachable self
  ∧ make_guess "A" self = (Raise (DuplicateGuess "a"), self)
  ∧ make_guess "Z" self = (Raise (DuplicateGuess "z"), self)
  ∧ make_guess "12" self = (Raise InvalidInput, self).
Proof.
  intros self.
  assert (reachable self) as Hr
    by (by apply reachable_guesses, reachable_new_game).
  split; [exact Hr|].
  pose proof (make_guess_rejections self "A" Hr) as (_ & HA & _ & HA' & _).
  pose proof (make_guess_rejections self "Z" Hr) as (_ & HZ & _ & HZ' & _).
  pose proof (make_guess_rejections self "12" Hr) as (H12 & _ & _ & H12' & _).
  assert (str_lower "A" ∈ guessed_letters self) as InA
    by (apply (bool_decide_eq_true_1 (str_lower "A" ∈ guessed_letters self));
        vm_compute; reflexivity).
  assert (str_lower "Z" ∈ guessed_letters self) as InZ
    by (apply (bool_decide_eq_true_1 (str_lower "Z" ∈ guessed_letters self));
        vm_compute; reflexivity).
  apply (HA eq_refl) in InA. apply (HZ eq_refl) in InZ.
  assert (fst (make_guess "12" self) = Raise InvalidInput) as E12
    by (apply H12; reflexivity).
  split; [|split]; apply injective_projections.
  - exact InA.
  - exact (HA' _ InA).
  - exact InZ.
  - exact (HZ' _ InZ).
  - exact E12.
  - exact (H12' _ E12).
Defined.

(** ** Accepted guesses *)

(** What an accepted guess does, hit and miss. *)
Lemma accepted_guess self letter :
  consistent self →
  single_alpha letter = true →
  str_lower letter ∉ guessed_letters self →
  fst (make_guess letter self)
  = Return (str_in (str_lower letter) (target_word self))
  ∧ guessed_letters (snd (make_guess letter self))
    = {[str_lower letter]} ∪ guessed_letters self
  ∧ (str_in (str_lower letter) (target_word self) = true →
     newly_revealed self (snd (make_guess letter self))
     ∧ current_lives (snd (make_guess letter self)) = current_lives self)
  ∧ (str_in (str_lower letter) (target_word self) = false →
     life_lost self (snd (make_guess letter self))
     ∧ display_word (snd (make_guess letter self)) = display_word self).
Proof.
  intros Hc Hl Hfresh.
  destruct (str_in (str_lower letter) (target_word self)) eqn:Hin.
  - rewrite make_guess_hit by (done || apply Hc). simpl.
    assert (current_lives (after_hit (str_lower letter) self)
            = current_lives self) as Hlives
      by (unfold after_hit; by case_match).
    assert (display_word (after_hit (str_lower letter) self)
            = pattern ({[str_lower letter]} ∪ guessed_letters self)
                (target_word self)) as Hd
      by (unfold after_hit; by case_match).
    split; [done|]. split; [unfold after_hit; by case_match|].
    split; [|done]. intros _. split; [|done].
    rewrite <- single_alpha_lower in Hl.
    apply single_alpha_inv in Hl as (c & Hc' & Ha).
    rewrite Hc' in *.
    destruct (pattern_hit c _ _ Ha Hfresh Hin) as (i & Hbefore & Hafter).
    exists i, (String c EmptyString).
    rewrite Hd, (cons_display _ Hc), Hbefore, Hafter.
    split; [done|]. split; [done|].
    intros [= ->]. by eapply placeholder_not_alpha.
  - rewrite make_guess_miss by done. simpl.
    split; [done|]. split; [unfold after_miss; by case_match|].
    split; [done|]. intros _.
    split; unfold life_lost, after_miss; by case_match.
Qed.

(** X23: in every reachable state, a guess of one alphabetic character whose
    lowercase form is one character and has not been guessed is accepted and
    does exactly one of two things.  If the letter is in the target,
    [make_guess] returns [True], a position showing the placeholder shows a
    letter afterwards, and [current_lives] is unchanged (no life is lost).
    Otherwise it returns [False], [current_lives] goes down by one, and
    [display_word] is unchanged (nothing is revealed).

    The condition on the lowercase form is what the loop of lines 74-76
    needs: it compares the lowercased guess with single characters of the
    target, while line 73 tests it as a substring.  For the letter U+0130,
    whose lowercase form is two code points, the two disagree: with a target
    that holds both in sequence the guess is a hit, costs no life and
    reveals nothing. *)
Theorem guess_reveals_or_costs_a_life self letter :
  reachable self →
  single_alpha letter = true →
  String.length (str_lower letter) = 1%nat →
  str_lower letter ∉ guessed_letters self →
  fst (make_guess letter self)
  = Return (str_in (str_lower letter) (target_word self))
  ∧ ((fst (make_guess letter self) = Return true
      ∧ newly_revealed self (snd (make_guess letter self))
      ∧ ¬ life_lost self (snd (make_guess letter self))
      ∧ current_lives (snd (make_guess letter self)) = current_lives self)
     ∨ (fst (make_guess letter self) = Return false
        ∧ life_lost self (snd (make_guess letter self))
        ∧ ¬ newly_revealed self (snd (make_guess letter self))
        ∧ display_word (snd (make_guess letter self)) = display_word self)).
Proof.
  intros Hc%reachable_consistent Hl _ Hfresh.
  destruct (accepted_guess self letter Hc Hl Hfresh)
    as (Hres & _ & Hhit & Hmiss).
  split; [done|]. rewrite Hres.
  destruct (str_in (str_lower letter) (target_word self)).
  - left. destruct (Hhit eq_refl) as [Hrev Hlives].
    repeat split; try done. unfold life_lost. lia.
  - right. destruct (Hmiss eq_refl) as [Hlost Hd].
    repeat split; try done.
    intros (i & shown & Hbefore & Hafter & Hshown).
    rewrite Hd in Hafter. congruence.
Qed.

Lemma guess_reveals_or_costs_a_life_witness :
  let self := guesses ["e"] (new_game INTERMEDIATE ["hello world"]) in
  (reachable self ∧ single_alpha "L" = true ∧ single_alpha "q" = true
   ∧ String.length (str_lower "L") = 1%nat
   ∧ String.length (str_lower "q") = 1%nat
   ∧ (str_lower "L" ∉ guessed_letters self)
   ∧ (str_lower "q" ∉ guessed_letters self))
  ∧ (fst (make_guess "L" self) = Return true
     ∧ current_lives (snd (make_guess "L" self)) = current_lives self
     ∧ newly_revealed self (snd (make_guess "L" self)))
  ∧ (fst (make_guess "q" self) = Return false
     ∧ current_lives (snd (make_guess "q" self)) = current_lives self - 1
     ∧ display_word (snd (make_guess "q" self)) = display_word self).
Proof.
  intros self.
  assert (reachable self) as Hr
    by (by apply reachable_guesses, reachable_new_game).
  assert (str_lower "L" ∉ guessed_letters self) as HL
    by (apply (bool_decide_eq_true_1 (str_lower "L" ∉ guessed_letters self));
        vm_compute; reflexivity).
  assert (str_lower "q" ∉ guessed_letters self) as Hq
    by (apply (bool_decide_eq_true_1 (str_lower "q" ∉ guessed_letters self));
        vm_compute; reflexivity).
  split; [repeat split; assumption || reflexivity|].
  destruct (guess_reveals_or_costs_a_life self "L" Hr eq_refl eq_refl HL)
    as [HL1 [(H1 & H2 & _ & H3)|(H1 & _)]].
  2: { rewrite H1 in HL1. vm_compute in HL1. discriminate HL1. }
  destruct (guess_reveals_or_costs_a_life self "q" Hr eq_refl eq_refl Hq)
    as [Hq1 [(H4 & _)|(H4 & H5 & _ & H6)]].
  { rewrite H4 in Hq1. vm_compute in Hq1. discriminate Hq1. }
  repeat split; assumption.
Defined.

(** ** The won flag *)

Lemma str_in_placeholder_cons c s :
  str_in "_" (String c s) = true ↔ c = "_"%char ∨ str_in "_" s = true.
Proof.
  change (str_in "_" (String c s))
    with (String.prefix "_" (String c s) || str_in "_" s).
  rewrite orb_true_iff, prefix_single.
  split; intros [H|H]; auto.
  - destruct H as [s' [= -> _]]. by left.
  - subst. eauto.
Qed.

Lemma join_placeholder (l : list string) :
  Forall (λ s, ∃ c, s = String c EmptyString) l →
  str_in "_" (str_join " " l) = true ↔ "_" ∈ l.
Proof.
  unfold str_join.
  induction 1 as [|x l [c ->] Hl IH]; [by rewrite elem_of_nil|].
  rewrite elem_of_cons. destruct l as [|y l].
  - simpl String.concat. rewrite str_in_placeholder_cons, elem_of_nil.
    split; intros [H|H]; try done; [left; congruence | left].
    by injection H.
  - change (String.concat " " (String c EmptyString :: y :: l))
      with (String c (String " " (String.concat " " (y :: l)))).
    rewrite !str_in_placeholder_cons, IH.
    split.
    + intros [->|[?|?]]; auto. done.
    + intros [[= <-]|?]; auto.
Qed.

Lemma pattern_single_chars guessed target :
  Forall (λ s, ∃ c, s = String c EmptyString) (pattern guessed target).
Proof.
  unfold pattern. apply Forall_fmap, Forall_forall. intros c _. simpl.
  unfold slot. case_match; eauto.
Qed.

(** C5, as the spec states it, fails: a candidate without a letter ("42", or
    the empty string a blank line gives) is shown unmasked from the start,
    and [won], which only a hit sets, stays false. *)
Lemma no_mask_but_not_won :
  let g := new_game BASIC ["42"] in
  reachable g ∧ ("_" ∉ display_word g)
  ∧ str_in "_" (get_display_string g) = false
  ∧ is_won g = true ∧ won g = false
  ∧ ∀ i, ¬ masked g i.
Proof.
  intros g. split; [by apply reachable_new_game|].
  split; [apply (bool_decide_eq_true_1 ("_" ∉ display_word g)); by vm_compute|].
  do 3 (split; [by vm_compute|]).
  intros i (c & Hc & Hd).
  destruct i as [|[|i]]; vm_compute in Hc, Hd; congruence.
Qed.

Lemma masked_placeholder self i :
  consistent self → masked self i → display_word self !! i = Some "_".
Proof.
  intros Hc (c & Hi & Hd). rewrite (cons_display _ Hc) in *.
  unfold pattern in *. rewrite list_lookup_fmap, Hi in *. simpl in *.
  unfold slot in *. by case_match.
Qed.

Lemma placeholder_masked self i :
  consistent self → "_"%char ∉ chars (target_word self) →
  display_word self !! i = Some "_" → masked self i.
Proof.
  intros Hc Hno Hd. rewrite (cons_display _ Hc) in Hd.
  unfold pattern in Hd. rewrite list_lookup_fmap in Hd.
  destruct (chars (target_word self) !! i) as [c|] eqn:Hi; [|done].
  exists c. split; [done|]. rewrite (cons_display _ Hc).
  unfold pattern. rewrite list_lookup_fmap, Hi. simpl in *.
  injection Hd as Hd. rewrite Hd. intros [= <-].
  apply Hno. by eapply list_elem_of_lookup_2.
Qed.

(** C5 (amended): in every reachable state, [won] implies that no position is
    masked; when the target has at least one alphabetic character and no
    underscore the converse holds as well, so that [won] is true iff no
    masked position remains; and [is_won()] is true iff
    [get_display_string()] contains no '_'. *)
Theorem won_iff_nothing_masked self :
  reachable self →
  (won self = true → ∀ i, ¬ masked self i)
  ∧ (has_letter (target_word self) = true →
     "_"%char ∉ chars (target_word self) →
     (won self = true ↔ ∀ i, ¬ masked self i))
  ∧ (is_won self = true ↔ str_in "_" (get_display_string self) = false).
Proof.
  intros Hc%reachable_consistent.
  assert (won self = true → ∀ i, ¬ masked self i) as Hwon.
  { intros Hw i Hm. apply (cons_won _ Hc) in Hw as [Hw _].
    apply is_won_display in Hw. apply Hw.
    eapply list_elem_of_lookup_2. by apply masked_placeholder. }
  split; [done|]. split.
  - intros Hletter Hno. split; [done|]. intros Hm.
    apply (cons_won_back _ Hc Hletter). apply is_won_display.
    intros [i Hi]%list_elem_of_lookup_1.
    apply (Hm i). by apply placeholder_masked.
  - rewrite is_won_display. unfold get_display_string.
    rewrite <- not_true_iff_false, join_placeholder; [done|].
    rewrite (cons_display _ Hc). apply pattern_single_chars.
Qed.

Lemma won_iff_nothing_masked_witness :
  let g := guesses ["c"; "a"; "t"] (new_game BASIC ["cat"]) in
  let h := guesses ["c"; "a"] (new_game BASIC ["cat"]) in
  (reachable g ∧ has_letter (target_word g) = true
   ∧ ("_"%char ∉ chars (target_word g)))
  ∧ won g = true ∧ (∀ i, ¬ masked g i)
  ∧ str_in "_" (get_display_string g) = false
  ∧ won h = false ∧ masked h 2.
Proof.
  intros g h.
  assert (reachable g) as Hr
    by (by apply reachable_guesses, reachable_new_game).
  assert (has_letter (target_word g) = true) as Hl by (vm_compute; reflexivity).
  assert ("_"%char ∉ chars (target_word g)) as Hno
    by (apply (bool_decide_eq_true_1 ("_"%char ∉ chars (target_word g)));
        vm_compute; reflexivity).
  split; [split; [exact Hr | split; [exact Hl | exact Hno]]|].
  destruct (won_iff_nothing_masked g Hr) as (Hwon & Hiff & Hshown).
  assert (won g = true) as Hw by (vm_compute; reflexivity).
  split; [exact Hw|]. split; [exact (proj1 (Hiff Hl Hno) Hw)|].
  split; [vm_compute; reflexivity|].
  split; [vm_compute; reflexivity|].
  exists "t"%char. split; [vm_compute; reflexivity|].
  vm_compute. discriminate.
Defined.

(** ** The timer *)

Lemma max0_nonneg x : (0 <= max0 x)%Q.
Proof. unfold max0. destruct (Qlt_le_dec 0 x); lra. Qed.

Lemma max0_Qmax x : (max0 x == Qmax 0 x)%Q.
Proof.
  unfold max0. destruct (Qlt_le_dec 0 x) as [Hlt|Hle].
  - symmetry. apply Q.max_r. lra.
  - symmetry. apply Q.max_l. lra.
Qed.

Lemma max0_mono x y : (x <= y)%Q → (max0 x <= max0 y)%Q.
Proof.
  intros H. unfold max0.
  destruct (Qlt_le_dec 0 x), (Qlt_le_dec 0 y); lra.
Qed.

Lemma remaining_unset now self :
  (start_time self == 0)%Q →
  get_remaining_time now self = inject_Z (time_limit self).
Proof.
  intros H%Qeq_bool_iff. unfold get_remaining_time. by rewrite H.
Qed.

Lemma remaining_running now self :
  ¬ (start_time self == 0)%Q →
  get_remaining_time now self
  = max0 (inject_Z (time_limit self) - (now - start_time self))%Q.
Proof.
  intros H. unfold get_remaining_time.
  destruct (Qeq_bool (start_time self) 0) eqn:He; [|done].
  by apply Qeq_bool_iff in He.
Qed.

Lemma remaining_nonneg self now :
  consistent self → (0 <= get_remaining_time now self)%Q.
Proof.
  intros Hc. pose proof (cons_time_limit _ Hc) as Hlimit.
  destruct (Qeq_dec (start_time self) 0) as [H0|Hrun].
  - rewrite remaining_unset, Hlimit by done. by vm_compute.
  - rewrite remaining_running by done. apply max0_nonneg.
Qed.

(** C6: in every reachable state [get_remaining_time] is never negative; it
    is the full [time_limit], 15, while [start_time] is 0 (the timer unset);
    otherwise it is 15 minus the time elapsed since [start_time], floored at
    0; and for one and the same [start_time] a later clock reading never
    gives a larger value.  The method assigns nothing: it is a function of
    the object and the clock that returns a number and no new object. *)
Theorem remaining_time_clamped self :
  reachable self →
  (∀ now, (0 <= get_remaining_time now self)%Q)
  ∧ ((start_time self == 0)%Q → ∀ now, get_remaining_time now self = 15%Q)
  ∧ (¬ (start_time self == 0)%Q →
     ∀ now, (get_remaining_time now self
             == Qmax 0 (15 - (now - start_time self)))%Q)
  ∧ (∀ t1 t2, (t1 <= t2)%Q →
       (get_remaining_time t2 self <= get_remaining_time t1 self)%Q).
Proof.
  intros Hc%reachable_consistent.
  pose proof (cons_time_limit _ Hc) as Hlimit.
  destruct (Qeq_dec (start_time self) 0) as [H0|Hrun].
  - assert (∀ now, get_remaining_time now self = 15%Q) as Hfull
      by (intros now; by rewrite remaining_unset, Hlimit).
    split; [intros now; rewrite Hfull; lra|].
    split; [done|]. split; [done|].
    intros t1 t2 _. rewrite !Hfull. lra.
  - assert (∀ now, get_remaining_time now self
                   = max0 (15 - (now - start_time self))%Q) as Hrest
      by (intros now; by rewrite remaining_running, Hlimit).
    split; [intros now; rewrite Hrest; apply max0_nonneg|].
    split; [done|].
    split; [intros _ now; rewrite Hrest; apply max0_Qmax|].
    intros t1 t2 Hle. rewrite !Hrest. apply max0_mono. lra.
Qed.

Lemma remaining_time_clamped_witness :
  let fresh := new_game BASIC ["cat"] in
  let self := start_timer 100 fresh in
  (reachable fresh ∧ reachable self ∧ (104 <= 120)%Q)
  ∧ get_remaining_time 104 fresh = 15%Q
  ∧ (get_remaining_time 104 self == 11)%Q
  ∧ (get_remaining_time 120 self == 0)%Q
  ∧ (get_remaining_time 120 self <= get_remaining_time 104 self)%Q.
Proof.
  intros fresh self.
  assert (reachable fresh) as Hfresh by (by apply reachable_new_game).
  assert (reachable self) as Hself by (by apply reach_start_timer).
  assert (104 <= 120)%Q as Hle by (vm_compute; discriminate).
  split; [repeat split; assumption|].
  destruct (remaining_time_clamped fresh Hfresh) as (_ & Hfull & _).
  destruct (remaining_time_clamped self Hself) as (_ & _ & Hrun & Hmono).
  assert (¬ (start_time self == 0)%Q) as Hset by (vm_compute; discriminate).
  split; [apply Hfull; reflexivity|].
  split; [rewrite (Hrun Hset 104%Q); vm_compute; reflexivity|].
  split; [rewrite (Hrun Hset 120%Q); vm_compute; reflexivity|].
  exact (Hmono _ _ Hle).
Defined.

(** ** The pattern of a phrase *)

(** C7: with the dictionary ["hello world"] at the intermediate level the
    constructor succeeds, whatever the generator draws, and before any guess
    [display_word] has 11 slots, ten placeholders and the space of the phrase
    at index 5, which [get_display_string] joins with single spaces. *)
Theorem hello_world_display fs r :
  _load_dictionary fs INTERMEDIATE = ["hello world"] →
  ∃ self, __init__ fs r INTERMEDIATE = Return self
    ∧ level self = INTERMEDIATE
    ∧ target_word self = "hello world"
    ∧ guessed_letters self = ∅
    ∧ display_word self
      = ["_"; "_"; "_"; "_"; "_"; " "; "_"; "_"; "_"; "_"; "_"]
    ∧ length (display_word self) = 11%nat
    ∧ get_display_string self = "_ _ _ _ _   _ _ _ _ _".
Proof.
  intros Hd.
  destruct (init_pick fs r INTERMEDIATE) as (target & Hin & _ & ->);
    [by rewrite Hd|].
  rewrite Hd in *. apply list_elem_of_singleton in Hin as ->.
  eexists. split; [done|]. by vm_compute.
Qed.

Lemma hello_world_display_witness :
  _load_dictionary (only ["Hello World" +:+ nl]) INTERMEDIATE = ["hello world"]
  ∧ ∃ self, __init__ (only ["Hello World" +:+ nl]) 7 INTERMEDIATE = Return self
      ∧ get_display_string self = "_ _ _ _ _   _ _ _ _ _".
Proof.
  assert (_load_dictionary (only ["Hello World" +:+ nl]) INTERMEDIATE
          = ["hello world"]) as Hd by (vm_compute; reflexivity).
  split; [exact Hd|].
  destruct (hello_world_display (only ["Hello World" +:+ nl]) 7 Hd)
    as (self & Hs & _ & _ & _ & _ & _ & Hshow).
  exists self. split; [exact Hs | exact Hshow].
Defined.

(** ** The status line *)

Lemma int_of_floor x : (0 <= x)%Q → int_of x = Qfloor x.
Proof.
  intros H. destruct x as [n d]. unfold int_of, Qfloor. simpl.
  apply Z.quot_div_nonneg; [|lia].
  unfold Qle in H. simpl in H. lia.
Qed.

Lemma reports_differ t1 t2 t3 n :
  victory_report t1 ≠ time_up_report t2
  ∧ victory_report t1 ≠ loss_report t3
  ∧ victory_report t1 ≠ time_report n
  ∧ time_up_report t2 ≠ loss_report t3
  ∧ time_up_report t2 ≠ time_report n
  ∧ loss_report t3 ≠ time_report n.
Proof.
  unfold victory_report, time_up_report, loss_report, time_report.
  repeat split; intros H; by injection H.
Qed.

(** C8: [get_game_status] gives one of four reports, which are pairwise
    different texts, in this order of precedence: the victory report when
    [won] is set; otherwise the time-up report when [is_time_up()]; otherwise
    the loss report when [current_lives <= 0]; otherwise the remaining time
    read from the clock and truncated to an integer.  The first three contain
    the target.  A won game whose time has run out reports victory. *)
Theorem status_precedence self now1 now2 :
  (won self = true →
   get_game_status now1 now2 self = victory_report (target_word self))
  ∧ (won self = false → is_time_up now1 self = true →
     get_game_status now1 now2 self = time_up_report (target_word self))
  ∧ (won self = false → is_time_up now1 self = false →
     current_lives self ≤ 0 →
     get_game_status now1 now2 self = loss_report (target_word self))
  ∧ (won self = false → is_time_up now1 self = false →
     0 < current_lives self →
     get_game_status now1 now2 self
     = time_report (int_of (get_remaining_time now2 self))
     ∧ (reachable self →
        int_of (get_remaining_time now2 self)
        = Qfloor (get_remaining_time now2 self)))
  ∧ (won self = true → is_time_up now1 self = true →
     get_game_status now1 now2 self = victory_report (target_word self)
     ∧ get_game_status now1 now2 self ≠ time_up_report (target_word self))
  ∧ str_in (target_word self) (victory_report (target_word self)) = true
  ∧ str_in (target_word self) (time_up_report (target_word self)) = true
  ∧ str_in (target_word self) (loss_report (target_word self)) = true
  ∧ (∀ t1 t2 t3 n,
       victory_report t1 ≠ time_up_report t2
       ∧ victory_report t1 ≠ loss_report t3
       ∧ victory_report t1 ≠ time_report n
       ∧ time_up_report t2 ≠ loss_report t3
       ∧ time_up_report t2 ≠ time_report n
       ∧ loss_report t3 ≠ time_report n).
Proof.
  unfold get_game_status.
  split; [by intros ->|].
  split; [by intros -> ->|].
  split; [intros -> -> Hl; apply Z.leb_le in Hl; by rewrite Hl|].
  split.
  { intros -> -> Hl. apply Z.leb_gt in Hl. rewrite Hl. split; [done|].
    intros Hr. apply int_of_floor.
    by apply (remaining_nonneg self now2), reachable_consistent. }
  split.
  { intros -> _. split; [done|].
    apply (reports_differ _ _ "" 0). }
  split; [apply str_in_middle|].
  split; [apply str_in_middle|].
  split; [apply str_in_middle|].
  apply reports_differ.
Qed.

Lemma status_precedence_witness :
  let won_late :=
    guesses ["c"; "a"; "t"] (start_timer 100 (new_game BASIC ["cat"])) in
  let running := start_timer 100 (new_game BASIC ["cat"]) in
  (won won_late = true ∧ is_time_up 116 won_late = true
   ∧ won running = false ∧ is_time_up (207 # 2) running = false
   ∧ 0 < current_lives running)
  ∧ get_game_status 116 116 won_late
    = "Congratulations! You guessed the word: 'cat'"
  ∧ get_game_status (207 # 2) (104 # 1) running = "Time remaining: 11 seconds".
Proof.
  intros won_late running.
  assert (won won_late = true) as H1 by (vm_compute; reflexivity).
  assert (is_time_up 116 won_late = true) as H2 by (vm_compute; reflexivity).
  assert (won running = false) as H3 by (vm_compute; reflexivity).
  assert (is_time_up (207 # 2) running = false) as H4
    by (vm_compute; reflexivity).
  assert (0 < current_lives running) as H5 by (vm_compute; reflexivity).
  split; [repeat split; assumption|].
  destruct (status_precedence won_late 116 116) as (_ & _ & _ & _ & Hw & _).
  destruct (status_precedence running (207 # 2) (104 # 1))
    as (_ & _ & _ & Hr & _).
  destruct (Hw H1 H2) as [-> _]. destruct (Hr H3 H4 H5) as [-> _].
  split; vm_compute; reflexivity.
Defined.

(** ** Starting over *)

(** C9: in every state with a dictionary that is not empty, reachable or
    not, [reset_game] returns normally, whatever the generator draws, with
    [current_lives] back at [max_lives], no guessed letter, [game_over] and
    [won] false, [start_time] 0, a target taken from the dictionary at the
    drawn index and masked as at construction, and the level, [max_lives],
    [time_limit] and the dictionary as they were; from a reachable state the
    state it leaves is reachable; and every candidate of the dictionary is
    the target for some draw. *)
Theorem reset_game_restores self r :
  dictionary self ≠ [] →
  (∃ self', reset_game r self = (Return (), self')
     ∧ current_lives self' = max_lives self'
     ∧ guessed_letters self' = ∅
     ∧ game_over self' = false
     ∧ won self' = false
     ∧ start_time self' = 0%Q
     ∧ target_word self' ∈ dictionary self
     ∧ dictionary self !! (r mod length (dictionary self))%nat
       = Some (target_word self')
     ∧ display_word self' = mask (target_word self') []
     ∧ level self' = level self
     ∧ max_lives self' = max_lives self
     ∧ time_limit self' = time_limit self
     ∧ dictionary self' = dictionary self
     ∧ (reachable self → reachable self'))
  ∧ (∀ candidate, candidate ∈ dictionary self →
       ∃ r', target_word (snd (reset_game r' self)) = candidate).
Proof.
  intros Hne. split.
  - destruct (reset_game_pick r self Hne) as (target & Hin & Hl & Hs).
    eexists. split; [exact Hs|].
    simpl. rewrite mask_pattern. repeat split; try done.
    intros Hr. pose proof (reach_reset_game r self Hr) as Hr'.
    by rewrite Hs in Hr'.
  - intros candidate [i Hi]%list_elem_of_lookup_1.
    exists i.
    destruct (reset_game_pick i self Hne) as (target & _ & Hl & ->).
    simpl. apply lookup_lt_Some in Hi as Hlt.
    rewrite Nat.mod_small in Hl by done. congruence.
Qed.

Lemma reset_game_restores_witness :
  let self :=
    start_timer 40 (guesses ["c"; "x"; "a"; "t"]
                      (new_game BASIC ["cat"; "lion"])) in
  (dictionary self ≠ [])
  ∧ (won self = true ∧ game_over self = true ∧ current_lives self = 5
     ∧ guessed_letters self ≠ ∅ ∧ start_time self = 40%Q)
  ∧ ∃ self', reset_game 3 self = (Return (), self')
      ∧ target_word self' = "lion"
      ∧ get_display_string self' = "_ _ _ _"
      ∧ current_lives self' = 6 ∧ won self' = false ∧ game_over self' = false
      ∧ guessed_letters self' = ∅
      ∧ start_time self' = 0%Q
      ∧ dictionary self' = ["cat"; "lion"].
Proof.
  intros self.
  assert (dictionary self ≠ []) as Hne by (vm_compute; discriminate).
  split; [exact Hne|].
  split.
  { do 3 (split; [vm_compute; reflexivity|]).
    split; [|vm_compute; reflexivity].
    apply (bool_decide_eq_true_1 (guessed_letters self ≠ ∅)).
    vm_compute. reflexivity. }
  destruct (reset_game_restores self 3 Hne)
    as [(self' & Hs & Hlives & Hg & Hover & Hwon & Htime & _ & Hpick & Hd
         & _ & Hmax & _ & Hdict & _) _].
  exists self'. split; [exact Hs|].
  assert (target_word self' = "lion") as Ht.
  { assert (dictionary self !! (3 mod length (dictionary self))%nat
            = Some "lion") as Hl by (vm_compute; reflexivity).
    congruence. }
  split; [exact Ht|].
  split; [unfold get_display_string; rewrite Hd, Ht; vm_compute; reflexivity|].
  split; [rewrite Hlives, Hmax; vm_compute; reflexivity|].
  split; [exact Hwon|]. split; [exact Hover|]. split; [exact Hg|].
  split; [exact Htime|].
  rewrite Hdict. vm_compute. reflexivity.
Defined.

(** ** Guessing after the end *)

(** X24: [make_guess] does not look at the end of the game.  In every
    reachable state for which [is_game_over()] answers yes, a guess of one
    alphabetic character, whose lowercase form is one character and was not
    guessed before, raises nothing: it returns whether the letter is in the
    target, records the letter (so the object changes), uncovers a masked
    position and keeps the lives on a hit, and on a miss takes one life,
    even below zero, and leaves the pattern.  (The condition on the
    lowercase form is that of [guess_reveals_or_costs_a_life].) *)
Theorem guess_after_game_over self now letter :
  reachable self →
  is_game_over now self = true →
  single_alpha letter = true →
  String.length (str_lower letter) = 1%nat →
  str_lower letter ∉ guessed_letters self →
  fst (make_guess letter self)
  = Return (str_in (str_lower letter) (target_word self))
  ∧ guessed_letters (snd (make_guess letter self))
    = {[str_lower letter]} ∪ guessed_letters self
  ∧ snd (make_guess letter self) ≠ self
  ∧ (str_in (str_lower letter) (target_word self) = true →
     newly_revealed self (snd (make_guess letter self))
     ∧ current_lives (snd (make_guess letter self)) = current_lives self)
  ∧ (str_in (str_lower letter) (target_word self) = false →
     current_lives (snd (make_guess letter self)) = current_lives self - 1
     ∧ display_word (snd (make_guess letter self)) = display_word self)
  ∧ is_game_over now (snd (make_guess letter self)) = true.
Proof.
  intros Hc%reachable_consistent Hover Hl _ Hfresh.
  destruct (accepted_guess self letter Hc Hl Hfresh)
    as (Hres & Hg & Hhit & Hmiss).
  split; [done|]. split; [done|].
  split.
  { intros Heq. rewrite Heq in Hg. apply Hfresh. rewrite Hg.
    by apply elem_of_union_l, elem_of_singleton. }
  split; [done|]. split; [done|].
  revert Hover. unfold is_game_over, is_time_up, get_remaining_time.
  assert (start_time (snd (make_guess letter self)) = start_time self
          ∧ time_limit (snd (make_guess letter self)) = time_limit self)
    as [-> ->]
    by (unfold make_guess; repeat case_match; done).
  pose proof (make_guess_lives letter self) as Hlives.
  rewrite !orb_true_iff, !Z.leb_le.
  intros [[Hover|Htime]|Hlost]; [|by auto|right; lia].
  left. left. by apply make_guess_game_over.
Qed.

Lemma guess_after_game_over_witness :
  let lost := guesses ["x"; "y"; "z"; "w"; "v"; "u"] (new_game BASIC ["cat"]) in
  (reachable lost ∧ is_game_over 0 lost = true ∧ current_lives lost = 0
   ∧ single_alpha "Q" = true ∧ single_alpha "c" = true
   ∧ String.length (str_lower "Q") = 1%nat
   ∧ String.length (str_lower "c") = 1%nat
   ∧ (str_lower "Q" ∉ guessed_letters lost)
   ∧ (str_lower "c" ∉ guessed_letters lost))
  ∧ fst (make_guess "Q" lost) = Return false
  ∧ current_lives (snd (make_guess "Q" lost)) = -1
  ∧ fst (make_guess "c" lost) = Return true
  ∧ newly_revealed lost (snd (make_guess "c" lost)).
Proof.
  intros lost.
  assert (reachable lost) as Hr
    by (by apply reachable_guesses, reachable_new_game).
  assert (is_game_over 0 lost = true) as Hover by (vm_compute; reflexivity).
  assert (current_lives lost = 0) as Hz by (vm_compute; reflexivity).
  assert (str_lower "Q" ∉ guessed_letters lost) as HQ
    by (apply (bool_decide_eq_true_1 (str_lower "Q" ∉ guessed_letters lost));
        vm_compute; reflexivity).
  assert (str_lower "c" ∉ guessed_letters lost) as Hc
    by (apply (bool_decide_eq_true_1 (str_lower "c" ∉ guessed_letters lost));
        vm_compute; reflexivity).
  split; [repeat split; assumption || reflexivity|].
  destruct (guess_after_game_over lost 0 "Q" Hr Hover eq_refl eq_refl HQ)
    as (HQ1 & _ & _ & _ & HQ2 & _).
  destruct (guess_after_game_over lost 0 "c" Hr Hover eq_refl eq_refl Hc)
    as (Hc1 & _ & _ & Hc2 & _).
  assert (str_in (str_lower "Q") (target_word lost) = false) as Hmiss
    by (vm_compute; reflexivity).
  assert (str_in (str_lower "c") (target_word lost) = true) as Hhit
    by (vm_compute; reflexivity).
  rewrite Hmiss in HQ1. rewrite Hhit in Hc1.
  destruct (HQ2 Hmiss) as [Hlives _]. destruct (Hc2 Hhit) as [Hrev _].
  split; [exact HQ1|]. split; [rewrite Hlives, Hz; reflexivity|].
  split; [exact Hc1 | exact Hrev].
Defined.

(** * Further properties of the game *)

(** ** Reasoning by the operation that produced a state *)

Lemma str_lower_idemp s : str_lower (str_lower s) = str_lower s.
Proof. induction s as [|c s IH]; simpl; [done|]. by rewrite char_lower_idemp, IH. Qed.

Lemma after_hit_fields letter self :
  guessed_letters (after_hit letter self) = {[letter]} ∪ guessed_letters self
  ∧ display_word (after_hit letter self)
    = pattern ({[letter]} ∪ guessed_letters self) (target_word self)
  ∧ current_lives (after_hit letter self) = current_lives self
  ∧ target_word (after_hit letter self) = target_word self
  ∧ dictionary (after_hit letter self) = dictionary self
  ∧ level (after_hit letter self) = level self
  ∧ start_time (after_hit letter self) = start_time self.
Proof. unfold after_hit. by case_match. Qed.

Lemma after_miss_fields letter self :
  guessed_letters (after_miss letter self) = {[letter]} ∪ guessed_letters self
  ∧ display_word (after_miss letter self) = display_word self
  ∧ current_lives (after_miss letter self) = current_lives self - 1
  ∧ target_word (after_miss letter self) = target_word self
  ∧ dictionary (after_miss letter self) = dictionary self
  ∧ level (after_miss letter self) = level self
  ∧ start_time (after_miss letter self) = start_time self
  ∧ won (after_miss letter self) = won self.
Proof. unfold after_miss. by case_match. Qed.

(** Every reachable state is a fresh one, or comes from a reachable one by
    starting the timer, by an accepted guess, or by a reset. *)
Lemma reachable_cases (P : HangmanGame → Prop) :
  (∀ fs lvl target,
     target ∈ _load_dictionary fs lvl →
     P (with_target target (blank lvl (_load_dictionary fs lvl)))) →
  (∀ now self, reachable self → P self → P (start_timer now self)) →
  (∀ letter self,
     reachable self → P self →
     single_alpha letter = true → str_lower letter = letter →
     letter ∉ guessed_letters self →
     str_in letter (target_word self) = true →
     P (after_hit letter self)) →
  (∀ letter self,
     reachable self → P self →
     single_alpha letter = true → str_lower letter = letter →
     letter ∉ guessed_letters self →
     str_in letter (target_word self) = false →
     P (after_miss letter self)) →
  (∀ target self,
     reachable self → P self → target ∈ dictionary self →
     P (with_target target (cleared self))) →
  ∀ self, reachable self → P self.
Proof.
  intros Hinit Htimer Hhit Hmiss Hreset self Hr.
  induction Hr as [fs r lvl self Hi|now self Hr IH|letter self Hr IH
                  |r self Hr IH].
  - apply init_inv in Hi as (target & Hin & ->). by apply Hinit.
  - by apply Htimer.
  - pose proof (reachable_consistent _ Hr) as Hc.
    destruct (single_alpha letter) eqn:Hl; [|by rewrite make_guess_invalid].
    destruct (decide (str_lower letter ∈ guessed_letters self)) as [Hdup|Hfresh];
      [by rewrite make_guess_duplicate|].
    destruct (str_in (str_lower letter) (target_word self)) eqn:Hin.
    + rewrite make_guess_hit by (done || apply Hc).
      apply Hhit; try done;
        [by rewrite single_alpha_lower | apply str_lower_idemp].
    + rewrite make_guess_miss by done.
      apply Hmiss; try done;
        [by rewrite single_alpha_lower | apply str_lower_idemp].
  - pose proof (reachable_consistent _ Hr) as Hc.
    destruct (reset_game_pick r self (consistent_dictionary _ Hc))
      as (target & Hin & _ & ->).
    by apply Hreset.
Qed.

(** ** Lives and wrong guesses *)

Lemma misses_hit letter self :
  str_in letter (target_word self) = true →
  misses (after_hit letter self) = misses self.
Proof.
  intros Hin. unfold misses.
  destruct (after_hit_fields letter self) as (-> & _ & _ & -> & _).
  apply set_eq. intros x.
  rewrite !elem_of_filter, elem_of_union, elem_of_singleton.
  split; [intros [? [->|?]]; [congruence | done] | intros [? ?]; auto].
Qed.

Lemma misses_miss letter self :
  str_in letter (target_word self) = false →
  misses (after_miss letter self) = {[letter]} ∪ misses self.
Proof.
  intros Hin. unfold misses.
  destruct (after_miss_fields letter self) as (-> & _ & _ & -> & _).
  apply set_eq. intros x.
  rewrite elem_of_union, !elem_of_filter, elem_of_union, elem_of_singleton.
  split; [intros [? [->|?]]; auto | intros [->|[? ?]]; auto].
Qed.

Lemma misses_none self : guessed_letters self = ∅ → misses self = ∅.
Proof.
  intros H. unfold misses. rewrite H. apply set_eq. intros x.
  rewrite elem_of_filter. split; [intros [_ ?] | intros ?]; done.
Qed.

Lemma lives_count self :
  reachable self →
  current_lives self = 6 - Z.of_nat (size (misses self)).
Proof.
  revert self. apply reachable_cases.
  - intros fs lvl target _. by rewrite misses_none, size_empty.
  - done.
  - intros letter self _ IH _ _ _ Hin. rewrite misses_hit by done.
    by destruct (after_hit_fields letter self) as (_ & _ & -> & _).
  - intros letter self _ IH _ _ Hfresh Hin. rewrite misses_miss by done.
    destruct (after_miss_fields letter self) as (_ & _ & -> & _).
    rewrite size_union, size_singleton; [lia|].
    apply disjoint_singleton_l. unfold misses. rewrite elem_of_filter. tauto.
  - intros target self Hr _ _. rewrite misses_none, size_empty by done.
    simpl. by rewrite (cons_max_lives _ (reachable_consistent _ Hr)).
Qed.

Lemma guessed_lowered self :
  reachable self →
  ∀ letter, letter ∈ guessed_letters self → str_lower letter = letter.
Proof.
  revert self.
  apply (reachable_cases
           (λ self, ∀ letter,
              letter ∈ guessed_letters self → str_lower letter = letter)).
  - intros fs lvl target _ letter. simpl. by intros ?%not_elem_of_empty.
  - done.
  - intros l self _ IH _ Hlow _ _ letter.
    destruct (after_hit_fields l self) as (-> & _).
    intros [->%elem_of_singleton|?]%elem_of_union; auto.
  - intros l self _ IH _ Hlow _ _ letter.
    destruct (after_miss_fields l self) as (-> & _).
    intros [->%elem_of_singleton|?]%elem_of_union; auto.
  - intros target self _ _ _ letter. simpl. by intros ?%not_elem_of_empty.
Qed.

Lemma dictionary_loaded self :
  reachable self → ∃ fs, dictionary self = _load_dictionary fs (level self).
Proof.
  revert self. apply reachable_cases.
  - intros fs lvl target _. by exists fs.
  - done.
  - intros l self _ IH _ _ _ _.
    by destruct (after_hit_fields l self) as (_ & _ & _ & _ & -> & -> & _).
  - intros l self _ IH _ _ _ _.
    by destruct (after_miss_fields l self) as (_ & _ & _ & _ & -> & -> & _).
  - done.
Qed.

Lemma game_over_cause self :
  reachable self →
  game_over self = true → won self = true ∨ current_lives self ≤ 0.
Proof.
  revert self.
  apply (reachable_cases
           (λ self, game_over self = true →
                    won self = true ∨ current_lives self ≤ 0)); try done.
  - intros l self _ IH _ _ _ _. unfold after_hit.
    case_match; simpl; auto.
  - intros l self _ IH _ _ _ _. unfold after_miss.
    case_match eqn:Hz; simpl.
    + intros _. right. by apply Z.leb_le.
    + intros H. destruct (IH H); [by left | right; lia].
Qed.

(** ** Loading the dictionary and constructing the game *)

Lemma load_from_file fs lvl lines :
  fs (dictionary_path lvl) = Some lines →
  _load_dictionary fs lvl = map (λ word, str_lower (str_strip word)) lines.
Proof. unfold _load_dictionary, open. by destruct lvl; simpl; intros ->. Qed.

Lemma load_fallback fs lvl :
  fs (dictionary_path lvl) = None →
  _load_dictionary fs lvl
  = match lvl with BASIC => fallback_words | INTERMEDIATE => fallback_phrases end.
Proof. unfold _load_dictionary, open. by destruct lvl; simpl; intros ->. Qed.

Lemma load_empty_iff fs lvl :
  _load_dictionary fs lvl = [] ↔ fs (dictionary_path lvl) = Some [].
Proof.
  destruct (fs (dictionary_path lvl)) as [lines|] eqn:Hf.
  - rewrite (load_from_file _ _ _ Hf). destruct lines; simpl; split; congruence.
  - rewrite (load_fallback _ _ Hf). destruct lvl; split; discriminate.
Qed.

(** X1: when the dictionary file of the level is read and has no line, the
    constructor raises [IndexError]; when it is read and has a line, or is
    missing ([FileNotFoundError], and the built-in list is used), the
    constructor returns an object whose target is the candidate at the drawn
    index modulo the number of candidates, with six lives, no guess, both
    flags false and the timer unset. *)
Theorem construction_outcome fs r lvl :
  (fs (dictionary_path lvl) = Some [] → __init__ fs r lvl = Raise IndexError)
  ∧ (fs (dictionary_path lvl) = None
     ∨ (∃ line lines, fs (dictionary_path lvl) = Some (line :: lines)) →
     ∃ self, __init__ fs r lvl = Return self
       ∧ level self = lvl
       ∧ dictionary self = _load_dictionary fs lvl
       ∧ dictionary self !! (r mod length (dictionary self))%nat
         = Some (target_word self)
       ∧ current_lives self = 6
       ∧ guessed_letters self = ∅
       ∧ game_over self = false ∧ won self = false
       ∧ start_time self = 0%Q).
Proof.
  split; [intros H%load_empty_iff; by apply init_empty|].
  intros Hfile.
  assert (_load_dictionary fs lvl ≠ []) as Hne.
  { rewrite load_empty_iff.
    destruct Hfile as [->|(line & lines & ->)]; discriminate. }
  destruct (init_pick fs r lvl Hne) as (target & _ & Hl & ->).
  eexists. split; [done|]. by simpl.
Qed.

Lemma construction_outcome_witness :
  (only [] (dictionary_path BASIC) = Some []
   ∧ (∃ line lines,
        only ["Owl"; "  cat "; "lion"] (dictionary_path BASIC)
        = Some (line :: lines))
   ∧ (λ _, None) (dictionary_path INTERMEDIATE) = @None (list string))
  ∧ __init__ (only []) 5 BASIC = Raise IndexError
  ∧ (∃ self, __init__ (only ["Owl"; "  cat "; "lion"]) 5 BASIC = Return self
       ∧ dictionary self = ["owl"; "cat"; "lion"]
       ∧ target_word self = "lion")
  ∧ (∃ self, __init__ (λ _, None) 5 INTERMEDIATE = Return self
       ∧ dictionary self = fallback_phrases
       ∧ target_word self = "software development").
Proof.
  assert (∃ line lines,
            only ["Owl"; "  cat "; "lion"] (dictionary_path BASIC)
            = Some (line :: lines)) as Hlines by (eexists _, _; reflexivity).
  split; [split; [reflexivity | split; [exact Hlines | reflexivity]]|].
  destruct (construction_outcome (only []) 5 BASIC) as (Hfail & _).
  destruct (construction_outcome (only ["Owl"; "  cat "; "lion"]) 5 BASIC)
    as (_ & Hok).
  destruct (construction_outcome (λ _, None) 5 INTERMEDIATE) as (_ & Hnone).
  split; [exact (Hfail eq_refl)|]. split.
  - destruct (Hok (or_intror Hlines)) as (self & Hs & _ & Hd & Ht & _).
    exists self. split; [exact Hs|].
    assert (dictionary self = ["owl"; "cat"; "lion"]) as Hd'
      by (rewrite Hd; vm_compute; reflexivity).
    split; [exact Hd'|].
    rewrite Hd' in Ht.
    change (Some "lion" = Some (target_word self)) in Ht. congruence.
  - destruct (Hnone (or_introl eq_refl)) as (self & Hs & _ & Hd & Ht & _).
    exists self. split; [exact Hs|].
    assert (dictionary self = fallback_phrases) as Hd'
      by (rewrite Hd; vm_compute; reflexivity).
    split; [exact Hd'|].
    rewrite Hd' in Ht.
    change (Some "software development" = Some (target_word self)) in Ht.
    congruence.
Defined.

(** *** Candidates are lowercase and trimmed *)

Lemma char_lower_isspace c : char_isspace (char_lower c) = char_isspace c.
Proof. by_cases_on_char c. Qed.

Lemma lstrip_lower s : str_lstrip (str_lower s) = str_lower (str_lstrip s).
Proof.
  induction s as [|c s IH]; simpl; [done|].
  rewrite char_lower_isspace. by destruct (char_isspace c).
Qed.

Lemma rstrip_lower s : str_rstrip (str_lower s) = str_lower (str_rstrip s).
Proof.
  induction s as [|c s IH]; simpl; [done|].
  rewrite IH, char_lower_isspace.
  destruct (str_rstrip s); simpl; [by destruct (char_isspace c) | done].
Qed.

Lemma strip_lower s : str_strip (str_lower s) = str_lower (str_strip s).
Proof. unfold str_strip. by rewrite lstrip_lower, rstrip_lower. Qed.

Lemma rstrip_idemp s : str_rstrip (str_rstrip s) = str_rstrip s.
Proof.
  induction s as [|c s IH]; simpl; [done|].
  destruct (str_rstrip s) as [|d r] eqn:Hr.
  - destruct (char_isspace c) eqn:Hc; simpl; [done | by rewrite Hc].
  - simpl in *. by rewrite IH.
Qed.

Lemma lstrip_head s :
  match str_lstrip s with
  | EmptyString => True
  | String c _ => char_isspace c = false
  end.
Proof.
  induction s as [|c s IH]; simpl; [done|].
  by destruct (char_isspace c) eqn:Hc; simpl.
Qed.

Lemma lstrip_rstrip_head c s :
  char_isspace c = false →
  str_lstrip (str_rstrip (String c s)) = str_rstrip (String c s).
Proof.
  intros Hc. simpl. destruct (str_rstrip s); rewrite ?Hc; simpl; by rewrite Hc.
Qed.

Lemma strip_idemp s : str_strip (str_strip s) = str_strip s.
Proof.
  unfold str_strip. pose proof (lstrip_head s) as Hh.
  destruct (str_lstrip s) as [|c t]; [done|].
  rewrite lstrip_rstrip_head by done. apply rstrip_idemp.
Qed.

Lemma rstrip_last s :
  match str_rstrip s with
  | EmptyString => True
  | String c r => char_isspace (last_char c r) = false
  end.
Proof.
  induction s as [|c s IH]; simpl; [done|].
  destruct (str_rstrip s) as [|d r]; [|done].
  by destruct (char_isspace c) eqn:Hc.
Qed.

Lemma strip_is_trimmed s : trimmed (str_strip s) = true.
Proof.
  unfold str_strip. pose proof (lstrip_head s) as Hh.
  destruct (str_lstrip s) as [|c t]; [done|].
  pose proof (rstrip_last (String c t)) as Hl. simpl in *.
  destruct (str_rstrip t) as [|d r]; rewrite ?Hh in *; simpl in *;
    by rewrite ?Hh, ?Hl.
Qed.

Lemma strip_trimmed s : str_strip s = s → trimmed s = true.
Proof. intros <-. apply strip_is_trimmed. Qed.

Lemma lowered_iff s : lowered s = true ↔ str_lower s = s.
Proof.
  unfold lowered. induction s as [|c s IH]; simpl; [done|].
  rewrite andb_true_iff, bool_decide_eq_true, IH.
  split; [intros [-> ->]; done | intros [= ? ?]; done].
Qed.

Lemma loaded_normal fs lvl word :
  word ∈ _load_dictionary fs lvl →
  str_lower word = word ∧ str_strip word = word.
Proof.
  intros Hin.
  destruct (fs (dictionary_path lvl)) as [lines|] eqn:Hf.
  - rewrite (load_from_file _ _ _ Hf) in Hin.
    apply list_elem_of_fmap in Hin as (line & -> & _).
    split; [apply str_lower_idemp|].
    by rewrite strip_lower, strip_idemp.
  - rewrite (load_fallback _ _ Hf) in Hin.
    destruct lvl; repeat (apply elem_of_cons in Hin as [->|Hin]; [done|]);
      by apply elem_of_nil in Hin.
Qed.

(** X2: whatever the files hold, every candidate [_load_dictionary] returns
    is lowercase and trimmed ([lower()] and [strip()] would leave it as it
    is); from a file it returns one candidate per line, in the order of the
    lines, with nothing filtered out: a blank line gives the empty string. *)
Theorem loaded_candidates_normalised fs lvl :
  (∀ word, word ∈ _load_dictionary fs lvl →
     str_lower word = word ∧ str_strip word = word
     ∧ lowered word = true ∧ trimmed word = true)
  ∧ (∀ lines, fs (dictionary_path lvl) = Some lines →
       length (_load_dictionary fs lvl) = length lines
       ∧ ∀ i line, lines !! i = Some line →
           _load_dictionary fs lvl !! i = Some (str_lower (str_strip line))
           ∧ (all_chars char_isspace line = true →
              _load_dictionary fs lvl !! i = Some EmptyString)).
Proof.
  split.
  - intros word Hin. destruct (loaded_normal fs lvl word Hin) as [Hl Hs].
    repeat split; try done; [by apply lowered_iff | by apply strip_trimmed].
  - intros lines Hf. rewrite (load_from_file _ _ _ Hf).
    split; [apply length_map|].
    intros i line Hi.
    assert (map (λ word, str_lower (str_strip word)) lines !! i
            = Some (str_lower (str_strip line))) as Hi'
      by (change (map ?f lines) with (f <$> lines);
          by rewrite list_lookup_fmap, Hi).
    split; [done|]. intros Hblank. rewrite Hi'. f_equal.
    assert (str_lstrip line = EmptyString) as Hl;
      [|unfold str_strip; by rewrite Hl].
    clear Hi Hi'. induction line as [|c line IH]; simpl in *; [done|].
    apply andb_true_iff in Hblank as [-> ?]. auto.
Qed.

Lemma loaded_candidates_normalised_witness :
  let fs := only ["  Unit Testing " +:+ nl; nl; "OWL"] in
  ("unit testing" ∈ _load_dictionary fs INTERMEDIATE
   ∧ fs (dictionary_path INTERMEDIATE)
     = Some ["  Unit Testing " +:+ nl; nl; "OWL"]
   ∧ ["  Unit Testing " +:+ nl; nl; "OWL"] !! 1%nat = Some nl
   ∧ all_chars char_isspace nl = true)
  ∧ str_strip "unit testing" = "unit testing"
  ∧ length (_load_dictionary fs INTERMEDIATE) = 3%nat
  ∧ _load_dictionary fs INTERMEDIATE !! 1%nat = Some EmptyString.
Proof.
  intros fs.
  assert ("unit testing" ∈ _load_dictionary fs INTERMEDIATE) as Hin
    by (vm_compute; apply list_elem_of_here).
  split; [repeat split; (exact Hin || reflexivity)|].
  destruct (loaded_candidates_normalised fs INTERMEDIATE) as [Hnorm Hfile].
  destruct (Hnorm _ Hin) as (_ & Hs & _).
  destruct (Hfile _ eq_refl) as [Hlen Hline].
  destruct (Hline 1%nat nl eq_refl) as [_ Hblank].
  split; [exact Hs|]. split; [exact Hlen|]. exact (Hblank eq_refl).
Defined.



(** ** The pattern, the guessed letters and the lives *)

Lemma length_chars s : length (chars s) = String.length s.
Proof. induction s; simpl; congruence. Qed.

(** X4: in every reachable state [display_word] has one slot for each
    character of the target, and the slot of a character shows the
    placeholder when the character is alphabetic and has not been guessed,
    and the character itself otherwise; so a slot never shows anything but
    the placeholder or the target's own character. *)
Theorem display_follows_target self :
  reachable self →
  length (display_word self) = String.length (target_word self)
  ∧ ∀ i c, chars (target_word self) !! i = Some c →
      (char_isalpha c = true →
       String c EmptyString ∉ guessed_letters self →
       display_word self !! i = Some "_")
      ∧ (char_isalpha c = false ∨ String c EmptyString ∈ guessed_letters self →
         display_word self !! i = Some (String c EmptyString))
      ∧ (display_word self !! i = Some "_"
         ∨ display_word self !! i = Some (String c EmptyString)).
Proof.
  intros Hc%reachable_consistent. rewrite (cons_display _ Hc).
  split; [apply length_pattern|].
  intros i c Hi. unfold pattern. rewrite list_lookup_fmap, Hi. simpl.
  unfold slot. destruct (char_isalpha c); simpl.
  - case_bool_decide; split; try done; (split; [|by auto]);
      intros [?|?]; done.
  - split; [done|]. split; auto.
Qed.

Lemma display_follows_target_witness :
  let self := guesses ["o"] (new_game INTERMEDIATE ["hello world"]) in
  (reachable self
   ∧ chars (target_word self) !! 4%nat = Some "o"%char
   ∧ chars (target_word self) !! 5%nat = Some " "%char
   ∧ chars (target_word self) !! 0%nat = Some "h"%char
   ∧ "o" ∈ guessed_letters self ∧ ("h" ∉ guessed_letters self))
  ∧ length (display_word self) = 11%nat
  ∧ display_word self !! 4%nat = Some "o"
  ∧ display_word self !! 5%nat = Some " "
  ∧ display_word self !! 0%nat = Some "_".
Proof.
  intros self.
  assert (reachable self) as Hr
    by (by apply reachable_guesses, reachable_new_game).
  assert ("o" ∈ guessed_letters self) as Ho
    by (apply (bool_decide_eq_true_1 ("o" ∈ guessed_letters self));
        vm_compute; reflexivity).
  assert ("h" ∉ guessed_letters self) as Hh
    by (apply (bool_decide_eq_true_1 ("h" ∉ guessed_letters self));
        vm_compute; reflexivity).
  split; [repeat split; (assumption || reflexivity)|].
  destruct (display_follows_target self Hr) as [Hlen Hslot].
  split; [rewrite Hlen; reflexivity|].
  destruct (Hslot 4%nat "o"%char eq_refl) as (_ & H4 & _).
  destruct (Hslot 5%nat " "%char eq_refl) as (_ & H5 & _).
  destruct (Hslot 0%nat "h"%char eq_refl) as (H0 & _).
  split; [exact (H4 (or_intror Ho))|].
  split; [exact (H5 (or_introl eq_refl))|].
  exact (H0 eq_refl Hh).
Defined.

(** X5: in every reachable state each element of [guessed_letters] is the
    lowercase form of one alphabetic character, and [lower()] leaves it
    unchanged. *)
Theorem guessed_letters_are_lowered_letters self letter :
  reachable self →
  letter ∈ guessed_letters self →
  (∃ c, char_isalpha c = true ∧ letter = str_lower (String c EmptyString))
  ∧ str_lower letter = letter.
Proof.
  intros Hr Hin.
  pose proof (guessed_lowered self Hr letter Hin) as Hlow.
  split; [|done].
  apply (cons_guessed _ (reachable_consistent _ Hr)) in Hin.
  apply single_alpha_inv in Hin as (c & -> & Ha). eauto.
Qed.

Lemma guessed_letters_are_lowered_letters_witness :
  let self := guesses ["Q"; "7"; "ab"; "e"] (new_game BASIC ["queen"]) in
  (reachable self ∧ "q" ∈ guessed_letters self)
  ∧ guessed_letters self = {["q"; "e"]}
  ∧ "q" = str_lower "Q"
  ∧ str_lower "q" = "q".
Proof.
  intros self.
  assert (reachable self) as Hr
    by (by apply reachable_guesses, reachable_new_game).
  assert ("q" ∈ guessed_letters self) as Hq
    by (apply (bool_decide_eq_true_1 ("q" ∈ guessed_letters self));
        vm_compute; reflexivity).
  split; [split; assumption|].
  split; [apply (bool_decide_eq_true_1 (guessed_letters self = {["q"; "e"]}));
          vm_compute; reflexivity|].
  split; [reflexivity|].
  exact (proj2 (guessed_letters_are_lowered_letters self "q" Hr Hq)).
Defined.

Lemma wrong_guesses_misses self :
  wrong_guesses self ≡ₚ elements (misses self).
Proof.
  unfold wrong_guesses, misses. apply NoDup_Permutation.
  - apply NoDup_filter, NoDup_elements.
  - apply NoDup_elements.
  - intros x. rewrite list_elem_of_filter, !elem_of_elements, elem_of_filter.
    done.
Qed.

(** X6: in every reachable state the lives lost are the wrong guesses:
    [current_lives] is [max_lives] minus the number of guessed letters that
    are not in the target (the list [get_hangman_drawing] shows). *)
Theorem lives_are_six_minus_wrong_guesses self :
  reachable self →
  current_lives self
  = max_lives self - Z.of_nat (length (wrong_guesses self))
  ∧ max_lives self = 6.
Proof.
  intros Hr. rewrite (cons_max_lives _ (reachable_consistent _ Hr)).
  split; [|done]. rewrite (lives_count self Hr).
  by rewrite (Permutation_length (wrong_guesses_misses self)).
Qed.

Lemma lives_are_six_minus_wrong_guesses_witness :
  let self := guesses ["z"; "c"; "Z"; "q"; "9"; "a"] (new_game BASIC ["cat"]) in
  reachable self
  ∧ length (wrong_guesses self) = 2%nat
  ∧ current_lives self = 4.
Proof.
  intros self.
  assert (reachable self) as Hr
    by (by apply reachable_guesses, reachable_new_game).
  split; [exact Hr|].
  assert (length (wrong_guesses self) = 2%nat) as Hw
    by (vm_compute; reflexivity).
  split; [exact Hw|].
  destruct (lives_are_six_minus_wrong_guesses self Hr) as [Hl Hm].
  rewrite Hl, Hm, Hw. reflexivity.
Defined.

(** ** The timer and the end of the game *)

(** X7: in every reachable state the time is up exactly when the timer has
    been started ([start_time] is not 0) and at least 15 seconds lie between
    [start_time] and the clock; a game whose timer is unset never runs out
    of time. *)
Theorem time_is_up_after_fifteen_seconds self now :
  reachable self →
  (is_time_up now self = true
   ↔ ¬ (start_time self == 0)%Q ∧ (15 <= now - start_time self)%Q)
  ∧ ((start_time self == 0)%Q → is_time_up now self = false).
Proof.
  intros Hc%reachable_consistent.
  pose proof (cons_time_limit _ Hc) as Hlimit.
  unfold is_time_up. rewrite Qle_bool_iff.
  destruct (Qeq_dec (start_time self) 0) as [H0|Hrun].
  - rewrite remaining_unset, Hlimit by done.
    assert (¬ (15 <= 0)%Q) as Hno by (vm_compute; tauto).
    split; [split; [done | tauto]|].
    intros _. apply not_true_iff_false. by rewrite Qle_bool_iff.
  - rewrite remaining_running, Hlimit by done.
    split; [|done]. unfold max0.
    destruct (Qlt_le_dec 0 (inject_Z 15 - (now - start_time self)))
      as [Hlt|Hle].
    + split; [intros ?; exfalso; lra | intros [_ ?]; exfalso].
      change (inject_Z 15) with 15%Q in Hlt. lra.
    + split; [intros _; split; [done|] | intros _; lra].
      change (inject_Z 15) with 15%Q in Hle. lra.
Qed.

Lemma time_is_up_after_fifteen_seconds_witness :
  let fresh := new_game BASIC ["cat"] in
  let self := start_timer 100 fresh in
  (reachable fresh ∧ reachable self ∧ (start_time fresh == 0)%Q
   ∧ ¬ (start_time self == 0)%Q ∧ (15 <= 115 - start_time self)%Q)
  ∧ is_time_up 1000000 fresh = false
  ∧ is_time_up 115 self = true.
Proof.
  intros fresh self.
  assert (reachable fresh) as Hf by (by apply reachable_new_game).
  assert (reachable self) as Hs by (by apply reach_start_timer).
  assert (¬ (start_time self == 0)%Q) as Hset by (vm_compute; discriminate).
  assert (15 <= 115 - start_time self)%Q as Hlate by (vm_compute; discriminate).
  split; [repeat split; (assumption || reflexivity)|].
  destruct (time_is_up_after_fifteen_seconds fresh 1000000 Hf) as [_ Hnever].
  destruct (time_is_up_after_fifteen_seconds self 115 Hs) as [[_ Hup] _].
  split; [apply Hnever; reflexivity | apply Hup; split; assumption].
Defined.

(** X8: in every reachable state the stored [game_over] flag is set exactly
    when the game is won or no life is left, so that [is_game_over()] is the
    flag or the timer: its own test of the lives adds nothing. *)
Theorem game_over_means_won_or_lost self now :
  reachable self →
  (game_over self = true ↔ won self = true ∨ current_lives self ≤ 0)
  ∧ is_game_over now self = game_over self || is_time_up now self.
Proof.
  intros Hr. pose proof (reachable_consistent _ Hr) as Hc.
  assert (game_over self = true ↔ won self = true ∨ current_lives self ≤ 0)
    as Hiff.
  { split; [by apply game_over_cause|].
    intros [Hw|Hl]; [by apply (cons_won _ Hc) | by apply (cons_lost _ Hc)]. }
  split; [done|]. unfold is_game_over.
  destruct (current_lives self <=? 0) eqn:Hz; [|by rewrite orb_false_r].
  apply Z.leb_le in Hz. rewrite (proj2 Hiff (or_intror Hz)). done.
Qed.

Lemma game_over_means_won_or_lost_witness :
  let lost := guesses ["x"; "y"; "z"; "w"; "v"; "u"] (new_game BASIC ["cat"]) in
  let playing := guesses ["x"; "c"] (new_game BASIC ["cat"]) in
  (reachable lost ∧ reachable playing)
  ∧ game_over lost = true
  ∧ game_over playing = false
  ∧ is_game_over 3 playing = false.
Proof.
  intros lost playing.
  assert (reachable lost) as Hl
    by (by apply reachable_guesses, reachable_new_game).
  assert (reachable playing) as Hp
    by (by apply reachable_guesses, reachable_new_game).
  split; [split; assumption|].
  destruct (game_over_means_won_or_lost lost 3 Hl) as [[_ Hover] _].
  destruct (game_over_means_won_or_lost playing 3 Hp) as [[Hcause _] Hsame].
  split; [apply Hover; right; vm_compute; discriminate|].
  assert (game_over playing = false) as Hno.
  { apply not_true_iff_false. intros [Hw|Hz]%Hcause.
    - vm_compute in Hw. discriminate Hw.
    - vm_compute in Hz. by apply Hz. }
  split; [exact Hno|]. rewrite Hsame, Hno. vm_compute. reflexivity.
Defined.

(** ** What a guess changes and what it leaves *)

(** X9: an accepted guess shows the letter at every position of the target
    that holds it and changes no other position; the target stays what it
    was. *)
Theorem guess_reveals_every_occurrence self letter :
  reachable self →
  single_alpha letter = true →
  str_lower letter ∉ guessed_letters self →
  target_word (snd (make_guess letter self)) = target_word self
  ∧ ∀ i c, chars (target_word self) !! i = Some c →
      (String c EmptyString = str_lower letter →
       display_word (snd (make_guess letter self)) !! i
       = Some (str_lower letter))
      ∧ (String c EmptyString ≠ str_lower letter →
         display_word (snd (make_guess letter self)) !! i
         = display_word self !! i).
Proof.
  intros Hc%reachable_consistent Hl Hfresh.
  destruct (str_in (str_lower letter) (target_word self)) eqn:Hin.
  - rewrite make_guess_hit by (done || apply Hc). simpl.
    destruct (after_hit_fields (str_lower letter) self)
      as (_ & -> & _ & -> & _).
    split; [done|]. intros i c Hi.
    rewrite (cons_display _ Hc). unfold pattern.
    rewrite !list_lookup_fmap, Hi. simpl.
    split; [intros <-; by rewrite slot_same | intros Hne; by rewrite slot_other].
  - rewrite make_guess_miss by done. simpl.
    destruct (after_miss_fields (str_lower letter) self)
      as (_ & -> & _ & -> & _).
    split; [done|]. intros i c Hi. split; [|done].
    intros Heq. rewrite <- Heq in Hin.
    assert (str_in (String c EmptyString) (target_word self) = true);
      [|congruence].
    apply str_in_single. by eapply list_elem_of_lookup_2.
Qed.

Lemma guess_reveals_every_occurrence_witness :
  let self := new_game INTERMEDIATE ["hello world"] in
  (reachable self ∧ single_alpha "L" = true
   ∧ (str_lower "L" ∉ guessed_letters self)
   ∧ chars (target_word self) !! 2%nat = Some "l"%char
   ∧ chars (target_word self) !! 3%nat = Some "l"%char
   ∧ chars (target_word self) !! 9%nat = Some "l"%char
   ∧ chars (target_word self) !! 4%nat = Some "o"%char)
  ∧ display_word (snd (make_guess "L" self)) !! 2%nat = Some "l"
  ∧ display_word (snd (make_guess "L" self)) !! 3%nat = Some "l"
  ∧ display_word (snd (make_guess "L" self)) !! 9%nat = Some "l"
  ∧ display_word (snd (make_guess "L" self)) !! 4%nat = Some "_".
Proof.
  intros self.
  assert (reachable self) as Hr by (by apply reachable_new_game).
  assert (str_lower "L" ∉ guessed_letters self) as Hf
    by (apply (bool_decide_eq_true_1 (str_lower "L" ∉ guessed_letters self));
        vm_compute; reflexivity).
  split; [repeat split; (assumption || reflexivity)|].
  destruct (guess_reveals_every_occurrence self "L" Hr eq_refl Hf)
    as [_ Hpos].
  destruct (Hpos 2%nat "l"%char eq_refl) as [H2 _].
  destruct (Hpos 3%nat "l"%char eq_refl) as [H3 _].
  destruct (Hpos 9%nat "l"%char eq_refl) as [H9 _].
  destruct (Hpos 4%nat "o"%char eq_refl) as [_ H4].
  split; [exact (H2 eq_refl)|]. split; [exact (H3 eq_refl)|].
  split; [exact (H9 eq_refl)|].
  rewrite (H4 ltac:(discriminate)). reflexivity.
Defined.

Lemma is_won_criterion self :
  consistent self →
  is_won self = true
  ↔ ∀ c, c ∈ chars (target_word self) →
      c ≠ "_"%char
      ∧ (char_isalpha c = true → String c EmptyString ∈ guessed_letters self).
Proof.
  intros Hc. rewrite is_won_display, (cons_display _ Hc).
  unfold pattern. rewrite list_elem_of_fmap. split.
  - intros Hno c Hin.
    assert (slot (guessed_letters self) c ≠ "_") as Hs
      by (intros Hs; apply Hno; eauto).
    rewrite slot_placeholder in Hs. split; [tauto|].
    intros Ha.
    destruct (decide (String c EmptyString ∈ guessed_letters self)); tauto.
  - intros Hall (c & Hs & Hin). symmetry in Hs.
    apply slot_placeholder in Hs. destruct (Hall c Hin) as [Hne Hg].
    destruct Hs as [[Ha Hfresh]|?]; [auto | done].
Qed.

(** X10: in every reachable state [is_won()] holds exactly when every
    alphabetic character of the target has been guessed and the target
    holds no underscore; when the target has a letter the same goes for the
    [won] flag. *)
Theorem won_when_every_letter_is_guessed self :
  reachable self →
  (is_won self = true
   ↔ ∀ c, c ∈ chars (target_word self) →
       c ≠ "_"%char
       ∧ (char_isalpha c = true →
          String c EmptyString ∈ guessed_letters self))
  ∧ (has_letter (target_word self) = true →
     (won self = true
      ↔ ∀ c, c ∈ chars (target_word self) →
          c ≠ "_"%char
          ∧ (char_isalpha c = true →
             String c EmptyString ∈ guessed_letters self))).
Proof.
  intros Hc%reachable_consistent.
  split; [by apply is_won_criterion|].
  intros Hletter. rewrite <- is_won_criterion by done.
  split; [by intros [? _]%(cons_won _ Hc) | by apply (cons_won_back _ Hc)].
Qed.

Lemma won_when_every_letter_is_guessed_witness :
  let stuck := guesses ["a"; "b"] (new_game BASIC ["a_b"]) in
  let done_ := guesses ["n"; "o"] (new_game BASIC ["no-no"]) in
  (reachable stuck ∧ reachable done_ ∧ has_letter (target_word done_) = true
   ∧ "_"%char ∈ chars (target_word stuck))
  ∧ is_won stuck = false
  ∧ won done_ = true.
Proof.
  intros stuck done_.
  assert (reachable stuck) as Hs
    by (by apply reachable_guesses, reachable_new_game).
  assert (reachable done_) as Hd
    by (by apply reachable_guesses, reachable_new_game).
  assert ("_"%char ∈ chars (target_word stuck)) as Hu
    by (vm_compute; apply list_elem_of_further, list_elem_of_here).
  split; [repeat split; (assumption || reflexivity)|].
  destruct (won_when_every_letter_is_guessed stuck Hs) as [Hwon _].
  destruct (won_when_every_letter_is_guessed done_ Hd) as [_ Hflag].
  split.
  - apply not_true_iff_false. intros Hw.
    destruct (proj1 Hwon Hw "_"%char Hu) as [Hne _]. by apply Hne.
  - apply (Hflag eq_refl). intros c Hin.
    assert (String c EmptyString ∈ guessed_letters done_ ∨ c = "-"%char)
      as Hcase.
    { vm_compute in Hin.
      repeat (apply elem_of_cons in Hin as [->|Hin];
              [first [ right; reflexivity
                     | left;
                       apply (bool_decide_eq_true_1
                                (_ ∈ guessed_letters done_));
                       vm_compute; reflexivity ]|]).
      by apply elem_of_nil in Hin. }
    destruct Hcase as [Hg| ->]; [|split; [discriminate | discriminate]].
    split; [|done]. intros ->.
    apply (guessed_lowered done_ Hd) in Hg as Hl.
    apply (cons_guessed _ (reachable_consistent _ Hd)) in Hg.
    vm_compute in Hg. discriminate Hg.
Defined.

Lemma reveal_raises_index letter i target display e display' :
  reveal letter i target display = (Raise e, display') → e = IndexError.
Proof.
  revert i display. induction target as [|c rest IH]; intros i display;
    [done|].
  rewrite reveal_cons. unfold setitem.
  repeat case_match; try done; [eauto | congruence | eauto].
Qed.

(** X11: in every state, reachable or not, [make_guess] leaves the level,
    [max_lives], [time_limit], the target, [start_time] and the dictionary
    alone, removes no guessed letter, never raises the lives and never
    clears [won] or [game_over]; when it returns, it has added the lowercased
    letter, which was not there, and nothing else; when it raises a
    [ValueError] the object is unchanged. *)
Theorem make_guess_frame self letter :
  (level (snd (make_guess letter self)) = level self
   ∧ max_lives (snd (make_guess letter self)) = max_lives self
   ∧ time_limit (snd (make_guess letter self)) = time_limit self
   ∧ target_word (snd (make_guess letter self)) = target_word self
   ∧ start_time (snd (make_guess letter self)) = start_time self
   ∧ dictionary (snd (make_guess letter self)) = dictionary self)
  ∧ guessed_letters self ⊆ guessed_letters (snd (make_guess letter self))
  ∧ current_lives (snd (make_guess letter self)) ≤ current_lives self
  ∧ (won self = true → won (snd (make_guess letter self)) = true)
  ∧ (game_over self = true → game_over (snd (make_guess letter self)) = true)
  ∧ (∀ hit, fst (make_guess letter self) = Return hit →
       (str_lower letter ∉ guessed_letters self)
       ∧ guessed_letters (snd (make_guess letter self))
         = {[str_lower letter]} ∪ guessed_letters self)
  ∧ (∀ msg, fst (make_guess letter self) = Raise (ValueError msg) →
       snd (make_guess letter self) = self).
Proof.
  split; [unfold make_guess; repeat case_match; by simpl|].
  split; [unfold make_guess; repeat case_match; simpl;
          (done || apply union_subseteq_r)|].
  split; [apply make_guess_lives|].
  split; [unfold make_guess; repeat case_match; by simpl|].
  split; [apply make_guess_game_over|].
  split.
  - intros hit. unfold make_guess. repeat case_match; by simpl.
  - intros msg. unfold make_guess. repeat case_match; simpl; try done.
    subst. intros [= ->].
    match goal with
    | H : reveal _ _ _ _ = (Raise _, _) |- _ =>
        apply reveal_raises_index in H; discriminate H
    end.
Qed.

Lemma make_guess_frame_witness :
  let self := guesses ["t"] (new_game BASIC ["cat"]) in
  (fst (make_guess "C" self) = Return true
   ∧ fst (make_guess "t" self)
     = Raise (ValueError "Letter 't' has already been guessed")
   ∧ game_over (guesses ["c"; "a"] self) = true)
  ∧ guessed_letters (snd (make_guess "C" self)) = {["c"]} ∪ guessed_letters self
  ∧ snd (make_guess "t" self) = self
  ∧ game_over (snd (make_guess "z" (guesses ["c"; "a"] self))) = true.
Proof.
  intros self.
  assert (fst (make_guess "C" self) = Return true) as H1
    by (vm_compute; reflexivity).
  assert (fst (make_guess "t" self)
          = Raise (ValueError "Letter 't' has already been guessed")) as H2
    by (vm_compute; reflexivity).
  assert (game_over (guesses ["c"; "a"] self) = true) as H3
    by (vm_compute; reflexivity).
  split; [repeat split; assumption|].
  destruct (make_guess_frame self "C") as (_ & _ & _ & _ & _ & Hret & _).
  destruct (make_guess_frame self "t") as (_ & _ & _ & _ & _ & _ & Hraise).
  destruct (make_guess_frame (guesses ["c"; "a"] self) "z")
    as (_ & _ & _ & _ & Hover & _).
  split; [exact (proj2 (Hret true H1))|].
  split; [exact (Hraise _ H2) | exact (Hover H3)].
Defined.

(** ** The display string *)

Lemma join_singles_cons c y l :
  str_join " " (String c EmptyString :: y :: l)
  = String c (String " " (str_join " " (y :: l))).
Proof. done. Qed.

Lemma join_singles_length (l : list string) :
  Forall (λ s, ∃ c, s = String c EmptyString) l →
  String.length (str_join " " l) = (2 * length l - 1)%nat.
Proof.
  induction 1 as [|x l [c ->] Hl IH]; [done|].
  destruct l as [|y l]; [done|].
  rewrite join_singles_cons. cbn [String.length]. rewrite IH.
  cbn [length]. lia.
Qed.

Lemma join_singles_get (l : list string) i c :
  Forall (λ s, ∃ c, s = String c EmptyString) l →
  l !! i = Some (String c EmptyString) →
  String.get (2 * i) (str_join " " l) = Some c
  ∧ (S i < length l → String.get (2 * i + 1) (str_join " " l) = Some " "%char)%nat.
Proof.
  intros Hl. revert i. induction Hl as [|x l [d ->] Hl IH]; intros i Hi;
    [done|].
  destruct i as [|i].
  - injection Hi as ->. destruct l as [|y l].
    + split; [done | simpl; lia].
    + rewrite join_singles_cons. by split.
  - simpl in Hi. destruct l as [|y l]; [done|].
    rewrite join_singles_cons.
    replace (2 * S i)%nat with (S (S (2 * i))) by lia.
    replace (S (S (2 * i)) + 1)%nat with (S (S (2 * i + 1))) by lia.
    cbn [String.get]. destruct (IH i Hi) as [H1 H2].
    split; [done|]. intros Hlt. apply H2. cbn [length] in *. lia.
Qed.

(** X12: in every reachable state the display string puts slot [i] of the
    pattern at position [2 i] and a space after every slot but the last, so
    that its length is twice the length of the target minus one (and zero
    for an empty target). *)
Theorem display_string_layout self :
  reachable self →
  String.length (get_display_string self)
  = (2 * String.length (target_word self) - 1)%nat
  ∧ ∀ i c, display_word self !! i = Some (String c EmptyString) →
      String.get (2 * i) (get_display_string self) = Some c
      ∧ (S i < String.length (target_word self) →
         String.get (2 * i + 1) (get_display_string self) = Some " "%char)%nat.
Proof.
  intros Hc%reachable_consistent. unfold get_display_string.
  pose proof (pattern_single_chars (guessed_letters self) (target_word self))
    as Hs.
  rewrite (cons_display _ Hc).
  split; [by rewrite join_singles_length, length_pattern|].
  intros i c Hi. rewrite <- (length_pattern (guessed_letters self)).
  by apply join_singles_get.
Qed.

Lemma display_string_layout_witness :
  let self := guesses ["o"] (new_game INTERMEDIATE ["hello world"]) in
  (reachable self ∧ display_word self !! 4%nat = Some "o"
   ∧ (5 < String.length (target_word self))%nat)
  ∧ String.length (get_display_string self) = 21%nat
  ∧ String.get 8 (get_display_string self) = Some "o"%char
  ∧ String.get 9 (get_display_string self) = Some " "%char.
Proof.
  intros self.
  assert (reachable self) as Hr
    by (by apply reachable_guesses, reachable_new_game).
  assert (display_word self !! 4%nat = Some "o") as H4
    by (vm_compute; reflexivity).
  assert (5 < String.length (target_word self))%nat as Hlt
    by (vm_compute; lia).
  split; [repeat split; assumption|].
  destruct (display_string_layout self Hr) as [Hlen Hget].
  destruct (Hget 4%nat "o"%char H4) as [Hc Hsp].
  split; [rewrite Hlen; vm_compute; reflexivity|].
  split; [exact Hc | exact (Hsp Hlt)].
Defined.

(** ** A game can be won *)

Lemma lowered_chars s c :
  str_lower s = s → c ∈ chars s → char_lower c = c.
Proof.
  induction s as [|d s IH]; simpl; [by intros _ ?%elem_of_nil|].
  intros [= Hd Hs] [->|?]%elem_of_cons; auto.
Qed.

Lemma target_lowered self :
  reachable self → str_lower (target_word self) = target_word self.
Proof.
  intros Hr. destruct (dictionary_loaded self Hr) as [fs Hd].
  pose proof (cons_target _ (reachable_consistent _ Hr)) as Hin.
  rewrite Hd in Hin. by destruct (loaded_normal _ _ _ Hin).
Qed.

Lemma spell_step self c :
  reachable self → c ∈ chars (target_word self) →
  reachable (snd (make_guess (String c EmptyString) self))
  ∧ target_word (snd (make_guess (String c EmptyString) self))
    = target_word self
  ∧ current_lives (snd (make_guess (String c EmptyString) self))
    = current_lives self
  ∧ guessed_letters self
    ⊆ guessed_letters (snd (make_guess (String c EmptyString) self))
  ∧ (char_isalpha c = true →
     String c EmptyString
     ∈ guessed_letters (snd (make_guess (String c EmptyString) self))).
Proof.
  intros Hr Hin. split; [by apply reach_make_guess|].
  pose proof (reachable_consistent _ Hr) as Hc.
  destruct (char_isalpha c) eqn:Ha.
  - assert (str_lower (String c EmptyString) = String c EmptyString) as Hl.
    { simpl. by rewrite (lowered_chars _ _ (target_lowered self Hr) Hin). }
    destruct (decide (String c EmptyString ∈ guessed_letters self))
      as [Hdup|Hfresh].
    + rewrite make_guess_duplicate by (by rewrite ?Hl). by simpl.
    + rewrite make_guess_hit; rewrite ?Hl; try done;
        [|apply Hc | by apply str_in_single].
      simpl.
      destruct (after_hit_fields (String c EmptyString) self)
        as (-> & _ & -> & -> & _).
      repeat split; try done; [apply union_subseteq_r|].
      intros _. by apply elem_of_union_l, elem_of_singleton.
  - rewrite make_guess_invalid by done. by simpl.
Qed.

Lemma spell_fold cs self :
  reachable self → (∀ c, c ∈ cs → c ∈ chars (target_word self)) →
  reachable (guesses (spell_chars cs) self)
  ∧ target_word (guesses (spell_chars cs) self) = target_word self
  ∧ current_lives (guesses (spell_chars cs) self) = current_lives self
  ∧ guessed_letters self ⊆ guessed_letters (guesses (spell_chars cs) self)
  ∧ ∀ c, c ∈ cs → char_isalpha c = true →
      String c EmptyString ∈ guessed_letters (guesses (spell_chars cs) self).
Proof.
  revert self. induction cs as [|c cs IH]; intros self Hr Hsub.
  - repeat split; try done. by intros c ?%elem_of_nil.
  - destruct (spell_step self c Hr) as (Hr' & Ht & Hlives & Hg & Hc);
      [apply Hsub, list_elem_of_here|].
    change (guesses (spell_chars (c :: cs)) self)
      with (guesses (spell_chars cs)
              (snd (make_guess (String c EmptyString) self))).
    destruct (IH _ Hr') as (Hr'' & Ht' & Hlives' & Hg' & Hc').
    { intros d Hd. rewrite Ht. by apply Hsub, list_elem_of_further. }
    split; [done|]. split; [congruence|]. split; [congruence|].
    split; [by etrans|].
    intros d [->|Hd]%elem_of_cons Ha; [by apply Hg', Hc | by apply Hc'].
Qed.

(** X13: every reachable game whose target has a letter and no underscore
    can still be won: guessing the characters of the target one after the
    other (whatever was guessed before, a guess that is rejected changing
    nothing) ends with [won] and [game_over] set and costs no life. *)
Theorem spelling_the_target_wins self :
  reachable self →
  has_letter (target_word self) = true →
  "_"%char ∉ chars (target_word self) →
  won (guesses (spell (target_word self)) self) = true
  ∧ game_over (guesses (spell (target_word self)) self) = true
  ∧ is_won (guesses (spell (target_word self)) self) = true
  ∧ current_lives (guesses (spell (target_word self)) self)
    = current_lives self
  ∧ target_word (guesses (spell (target_word self)) self) = target_word self.
Proof.
  intros Hr Hletter Hunder.
  destruct (spell_fold (chars (target_word self)) self Hr)
    as (Hr' & Ht & Hlives & _ & Hall); [done|].
  change (spell_chars (chars (target_word self)))
    with (spell (target_word self)) in *.
  pose proof (reachable_consistent _ Hr') as Hc'.
  assert (is_won (guesses (spell (target_word self)) self) = true) as Hw.
  { apply is_won_criterion; [done|]. rewrite Ht. intros c Hin.
    split; [by intros -> | by apply Hall]. }
  assert (won (guesses (spell (target_word self)) self) = true) as Hwon
    by (apply (cons_won_back _ Hc'); [by rewrite Ht | done]).
  repeat split; try done. by apply (cons_won _ Hc').
Qed.

Lemma spelling_the_target_wins_witness :
  let self := guesses ["z"; "l"; "q"] (new_game INTERMEDIATE ["hello world"]) in
  (reachable self ∧ has_letter (target_word self) = true
   ∧ ("_"%char ∉ chars (target_word self)))
  ∧ won self = false ∧ current_lives self = 4
  ∧ won (guesses (spell "hello world") self) = true
  ∧ current_lives (guesses (spell "hello world") self) = 4.
Proof.
  intros self.
  assert (reachable self) as Hr
    by (by apply reachable_guesses, reachable_new_game).
  assert ("_"%char ∉ chars (target_word self)) as Hu
    by (apply (bool_decide_eq_true_1 ("_"%char ∉ chars (target_word self)));
        vm_compute; reflexivity).
  split; [repeat split; (assumption || reflexivity)|].
  assert (target_word self = "hello world") as Ht by (vm_compute; reflexivity).
  assert (current_lives self = 4) as Hl by (vm_compute; reflexivity).
  destruct (spelling_the_target_wins self Hr eq_refl Hu)
    as (Hwon & _ & _ & Hlives & _).
  rewrite Ht in Hwon, Hlives.
  split; [vm_compute; reflexivity|]. split; [exact Hl|].
  split; [exact Hwon|]. rewrite Hlives. exact Hl.
Defined.

(** ** The drawing *)

Lemma str_app_assoc a b c : (a +:+ b) +:+ c = a +:+ b +:+ c.
Proof.
  induction a as [|x a IH]; [done|].
  change ((String x a +:+ b) +:+ c) with (String x ((a +:+ b) +:+ c)).
  by rewrite IH.
Qed.

Lemma str_in_refl s : str_in s s = true.
Proof.
  destruct s as [|c s]; [done|].
  change (str_in (String c s) (String c s))
    with (String.prefix (String c s) (String c s) || str_in (String c s) s).
  apply orb_true_iff. left.
  pose proof (prefix_app (String c s) EmptyString) as H.
  assert (∀ t, t +:+ "" = t) as Hnil
    by (induction t as [|x t IH]; [done|];
        change (String x t +:+ "") with (String x (t +:+ ""));
        by rewrite IH).
  by rewrite Hnil in H.
Qed.

Lemma prefix_nil s : String.prefix EmptyString s = true.
Proof. by destruct s. Qed.

Lemma prefix_app_l s a b :
  String.prefix s a = true → String.prefix s (a +:+ b) = true.
Proof.
  revert a. induction s as [|y s IH]; intros a Hp; [apply prefix_nil|].
  destruct a as [|x a]; [done|].
  change (String x a +:+ b) with (String x (a +:+ b)).
  simpl in *. destruct (ascii_dec y x); [by apply IH | done].
Qed.

Lemma str_in_app_l s a b : str_in s a = true → str_in s (a +:+ b) = true.
Proof.
  induction a as [|x a IH].
  - destruct s; [intros _ | done].
    destruct b; [done|]. apply orb_true_iff. by left.
  - change (String x a +:+ b) with (String x (a +:+ b)).
    change (str_in s (String x a))
      with (String.prefix s (String x a) || str_in s a).
    change (str_in s (String x (a +:+ b)))
      with (String.prefix s (String x (a +:+ b)) || str_in s (a +:+ b)).
    intros [Hp|Hin]%orb_true_iff; apply orb_true_iff; [left | right; auto].
    by apply (prefix_app_l s (String x a) b).
Qed.

Lemma sorted_wrong_guesses self letter :
  letter ∈ sorted (wrong_guesses self)
  ↔ letter ∈ guessed_letters self ∧ str_in letter (target_word self) = false.
Proof.
  unfold sorted. rewrite sorting.merge_sort_Permutation. unfold wrong_guesses.
  rewrite list_elem_of_filter, elem_of_elements. tauto.
Qed.

(** X14: in every state the drawing holds the line "Lives remaining: "
    followed by [current_lives], and, when some guessed letter is not in the
    target, the line "Wrong guesses: " followed by those letters joined with
    ", ": exactly the guessed letters that are not in the target, each once,
    in ascending order. *)
Theorem drawing_lists_the_wrong_guesses self :
  str_in ("Lives remaining: " +:+ str_of_int (current_lives self))
    (get_hangman_drawing self) = true
  ∧ (wrong_guesses self ≠ [] →
     str_in ("Wrong guesses: "
             +:+ str_join ", " (sorted (wrong_guesses self)))
       (get_hangman_drawing self) = true)
  ∧ (∀ letter,
       letter ∈ sorted (wrong_guesses self)
       ↔ letter ∈ guessed_letters self
         ∧ str_in letter (target_word self) = false)
  ∧ NoDup (sorted (wrong_guesses self))
  ∧ Sorted.Sorted String.le (sorted (wrong_guesses self)).
Proof.
  assert (∀ a, str_in ("Lives remaining: "
                       +:+ str_of_int (current_lives self))
                 (a +:+ nl +:+ nl +:+ "Lives remaining: "
                  +:+ str_of_int (current_lives self)) = true) as Hlives.
  { intros a. do 3 apply str_in_app_r. apply str_in_refl. }
  split; [|split; [|split; [|split]]].
  - unfold get_hangman_drawing. destruct (wrong_guesses self); [apply Hlives|].
    apply str_in_app_l, Hlives.
  - intros Hne. unfold get_hangman_drawing.
    destruct (wrong_guesses self) eqn:Hw; [done|].
    do 2 apply str_in_app_r. apply str_in_refl.
  - apply sorted_wrong_guesses.
  - unfold sorted. rewrite sorting.merge_sort_Permutation.
    apply NoDup_filter, NoDup_elements.
  - apply sorting.Sorted_merge_sort. apply _.
Qed.

Lemma drawing_lists_the_wrong_guesses_witness :
  let self := guesses ["z"; "c"; "q"; "b"] (new_game BASIC ["cat"]) in
  wrong_guesses self ≠ []
  ∧ sorted (wrong_guesses self) = ["b"; "q"; "z"]
  ∧ str_in "Lives remaining: 3" (get_hangman_drawing self) = true
  ∧ str_in "Wrong guesses: b, q, z" (get_hangman_drawing self) = true.
Proof.
  intros self.
  assert (sorted (wrong_guesses self) = ["b"; "q"; "z"]) as Hs
    by (vm_compute; reflexivity).
  assert (wrong_guesses self ≠ []) as Hne.
  { assert (length (wrong_guesses self) = 3%nat) as Hlen
      by (vm_compute; reflexivity).
    intros He. rewrite He in Hlen. discriminate Hlen. }
  split; [exact Hne|]. split; [exact Hs|].
  destruct (drawing_lists_the_wrong_guesses self) as (Hl & Hw & _).
  assert ("Lives remaining: " +:+ str_of_int (current_lives self)
          = "Lives remaining: 3") as E1 by (vm_compute; reflexivity).
  assert ("Wrong guesses: " +:+ str_join ", " (sorted (wrong_guesses self))
          = "Wrong guesses: b, q, z") as E2 by (vm_compute; reflexivity).
  rewrite E1 in Hl. specialize (Hw Hne). rewrite E2 in Hw.
  split; [exact Hl | exact Hw].
Defined.

Lemma figure_of_lives self :
  max_lives self = 6 → hangman_parts self = figure_at (current_lives self).
Proof.
  intros Hm. unfold figure_at, hangman_parts, _get_body_part, _get_legs_part.
  simpl. by rewrite Hm.
Qed.

Lemma figure_complete lives : lives ≤ 1 → figure_at lives = figure_at 1.
Proof.
  intros Hl. unfold figure_at, hangman_parts, _get_body_part, _get_legs_part.
  simpl.
  assert ((1 <=? 6 - lives) = true) as -> by (apply Z.leb_le; lia).
  assert ((3 <=? 6 - lives) = true) as -> by (apply Z.leb_le; lia).
  assert ((5 <=? 6 - lives) = true) as -> by (apply Z.leb_le; lia).
  done.
Qed.

(** X15: in reachable states the figure depends on [current_lives] only,
    and it changes with each of the first five lives lost and no further:
    two states show the same figure exactly when they have the same number
    of lives, or one life or fewer each. *)
Theorem figure_follows_the_lives self1 self2 :
  reachable self1 → reachable self2 →
  hangman_parts self1 = hangman_parts self2
  ↔ Z.max (current_lives self1) 1 = Z.max (current_lives self2) 1.
Proof.
  intros Hc1%reachable_consistent Hc2%reachable_consistent.
  rewrite (figure_of_lives self1 (cons_max_lives _ Hc1)).
  rewrite (figure_of_lives self2 (cons_max_lives _ Hc2)).
  pose proof (cons_lives_le _ Hc1) as Hle1.
  pose proof (cons_lives_le _ Hc2) as Hle2.
  assert (∀ l, l ≤ 6 →
            (l ≤ 1 ∧ figure_at l = figure_at 1)
            ∨ l = 2 ∨ l = 3 ∨ l = 4 ∨ l = 5 ∨ l = 6) as Hcases.
  { intros l Hl. destruct (decide (l ≤ 1)); [|lia].
    left. split; [done | by apply figure_complete]. }
  destruct (Hcases _ Hle1) as [[H1 ->]|H1], (Hcases _ Hle2) as [[H2 ->]|H2].
  - split; [lia | done].
  - destruct H2 as [->|[->|[->|[->| ->]]]];
      (split; [intros H; vm_compute in H; discriminate H | intros ?; lia]).
  - destruct H1 as [->|[->|[->|[->| ->]]]];
      (split; [intros H; vm_compute in H; discriminate H | intros ?; lia]).
  - destruct H1 as [->|[->|[->|[->| ->]]]], H2 as [->|[->|[->|[->| ->]]]];
      (split; [intros H; (reflexivity || (vm_compute in H; discriminate H))
              | intros H; (reflexivity || (exfalso; lia))]).
Qed.

Lemma figure_follows_the_lives_witness :
  let five := guesses ["x"; "y"; "z"; "w"; "v"] (new_game BASIC ["cat"]) in
  let six := guesses ["u"] five in
  let four := guesses ["x"; "y"; "z"; "w"] (new_game BASIC ["cat"]) in
  (reachable five ∧ reachable six ∧ reachable four)
  ∧ current_lives five = 1 ∧ current_lives six = 0
  ∧ hangman_parts five = hangman_parts six
  ∧ hangman_parts four ≠ hangman_parts five.
Proof.
  intros five six four.
  assert (reachable five) as H5
    by (by apply reachable_guesses, reachable_new_game).
  assert (reachable six) as H6 by (by apply reachable_guesses).
  assert (reachable four) as H4
    by (by apply reachable_guesses, reachable_new_game).
  split; [repeat split; assumption|].
  split; [vm_compute; reflexivity|]. split; [vm_compute; reflexivity|].
  split.
  - apply (figure_follows_the_lives five six H5 H6). vm_compute. reflexivity.
  - intros H. apply (figure_follows_the_lives four five H4 H5) in H.
    vm_compute in H. discriminate H.
Defined.

(** ** The seconds of the status line *)

(** X16: in every reachable state the number of seconds the status line
    would report is never negative, and it is at most 15 when the clock
    reading is not earlier than [start_time]. *)
Theorem reported_seconds_in_range self now :
  reachable self →
  0 ≤ int_of (get_remaining_time now self)
  ∧ ((start_time self <= now)%Q →
     int_of (get_remaining_time now self) ≤ 15).
Proof.
  intros Hc%reachable_consistent.
  pose proof (remaining_nonneg self now Hc) as Hpos.
  rewrite (int_of_floor _ Hpos).
  split.
  - change 0 with (Qfloor 0). by apply Qfloor_resp_le.
  - intros Hnow. rewrite <- (Qfloor_Z 15).
    apply Qfloor_resp_le. pose proof (cons_time_limit _ Hc) as Hlimit.
    destruct (Qeq_dec (start_time self) 0) as [H0|Hrun].
    + rewrite remaining_unset, Hlimit by done. apply Qle_refl.
    + rewrite remaining_running, Hlimit by done. unfold max0.
      change (inject_Z 15) with 15%Q.
      destruct (Qlt_le_dec 0 (15 - (now - start_time self))); lra.
Qed.

Lemma reported_seconds_in_range_witness :
  let self := start_timer 100 (new_game BASIC ["cat"]) in
  (reachable self ∧ (start_time self <= 2009 # 10)%Q)
  ∧ 0 ≤ int_of (get_remaining_time (2009 # 10) self) ≤ 15
  ∧ int_of (get_remaining_time (1009 # 10) self) = 14.
Proof.
  intros self.
  assert (reachable self) as Hr
    by (by apply reach_start_timer, reachable_new_game).
  assert (start_time self <= 2009 # 10)%Q as Hle by (vm_compute; discriminate).
  split; [split; assumption|].
  destruct (reported_seconds_in_range self (2009 # 10) Hr) as [H0 H15].
  split; [split; [exact H0 | exact (H15 Hle)] | vm_compute; reflexivity].
Defined.

(** ** The program *)

Lemma play_guarded clock draws keys :
  ∀ n game, guarded game → guarded (play clock draws n keys game).2.
Proof.
  induction keys as [|key keys IH]; intros n game Hg.
  - cbn [play]. case_match; simpl; by apply guarded_start_timer.
  - cbn [play].
    pose proof (guarded_start_timer (at_start_timer (clock n)) game Hg) as Hs.
    destruct (is_game_over _ _) eqn:Hover.
    + destruct key as [text| |]; try done.
      case_decide; [|done].
      pose proof (guarded_reset_game (draws n) _ Hs) as Hr.
      destruct (reset_game _ _) as [[[]|e] game'] eqn:Hreset; simpl in Hr.
      * specialize (IH (S n) game' Hr).
        destruct (play clock draws (S n) keys game') as [[out e] g]. done.
      * done.
    + destruct key as [text| |]; try done.
      destruct (is_time_up _ _).
      * specialize (IH (S n) _ Hs).
        destruct (play clock draws (S n) keys _) as [[out e] g]. done.
      * pose proof (guarded_make_guess _ (str_strip text) _ Hs Hover) as Hm.
        destruct (make_guess _ _) as [[result|[msg| |]] game'] eqn:Hguess;
          simpl in Hm; try done.
        -- specialize (IH (S n) game' Hm).
           destruct (play clock draws (S n) keys game') as [[out e] g]. done.
        -- specialize (IH (S n) game' Hm).
           destruct (play clock draws (S n) keys game') as [[out e] g]. done.
Qed.

(** X17: whatever is typed and whatever the clock reads, [main] forwards a
    guess to [make_guess] only in a turn in which [is_game_over()] has
    answered no; so the game object of a run of [main], at its end or where
    it waits for input, has between 0 and 6 lives and at most 6 wrong
    guesses. *)
Theorem main_never_guesses_past_the_end fs r clock draws keys out e game :
  main fs r clock draws keys = (out, e, Some game) →
  guarded game
  ∧ 0 ≤ current_lives game ≤ 6
  ∧ (length (wrong_guesses game) ≤ 6)%nat.
Proof.
  unfold main.
  destruct (choose_level keys) as [[out0 [e0|lvl]] keys']; [done|].
  destruct (__init__ fs r lvl) as [game0|e0] eqn:Hi; [|done].
  pose proof (play_guarded clock draws keys' 0 game0
                (guarded_init _ _ _ _ Hi)) as Hg.
  destruct (play clock draws 0 keys' game0) as [[out' e'] game'].
  intros [= _ _ <-]. simpl in Hg.
  pose proof (guarded_lives _ Hg) as H0.
  pose proof (guarded_reachable _ Hg) as Hr.
  pose proof (cons_lives_le _ (reachable_consistent _ Hr)) as H6.
  pose proof (lives_count _ Hr) as Hcount.
  pose proof (Permutation_length (wrong_guesses_misses game')) as Hlen.
  change (length (elements (misses game'))) with (size (misses game')) in Hlen.
  split; [done|]. split; lia.
Qed.

Lemma main_never_guesses_past_the_end_witness :
  let keys :=
    [Line "1"; Line "x"; Line "y"; Line "z"; Line "w"; Line "v"; Line "u";
     Line " Y "; Line "j"] in
  let clock := steady (λ n, (100%Q, 1%Q)) in
  ∃ out game,
    main (only ["cat"; "owl"]) 0 clock (λ _, 1%nat) keys
    = (out, AwaitingInput, Some game)
    ∧ target_word game = "owl"
    ∧ wrong_guesses game = ["j"]
    ∧ 0 ≤ current_lives game ≤ 6.
Proof.
  intros keys clock.
  destruct (main (only ["cat"; "owl"]) 0 clock (λ _, 1%nat) keys)
    as [[out e] [game|]] eqn:Hm.
  - exists out, game.
    destruct (main_never_guesses_past_the_end _ _ _ _ _ _ _ _ Hm)
      as (_ & Hlives & _).
    assert (e = AwaitingInput ∧ target_word game = "owl"
            ∧ wrong_guesses game = ["j"]) as (-> & Ht & Hw).
    { vm_compute in Hm. injection Hm as _ <- <-.
      repeat split; vm_compute; reflexivity. }
    repeat split; (assumption || apply Hlives).
  - vm_compute in Hm. discriminate Hm.
Defined.

Lemma make_guess_outcome letter self :
  consistent self →
  (∃ hit, fst (make_guess letter self) = Return hit)
  ∨ (∃ msg, fst (make_guess letter self) = Raise (ValueError msg)).
Proof.
  intros Hc. destruct (single_alpha letter) eqn:Hl.
  - destruct (decide (str_lower letter ∈ guessed_letters self)) as [Hdup|Hfresh].
    + rewrite make_guess_duplicate by done. right. by eexists.
    + destruct (str_in (str_lower letter) (target_word self)) eqn:Hin.
      * rewrite make_guess_hit by (done || apply Hc). left. by eexists.
      * rewrite make_guess_miss by done. left. by eexists.
  - rewrite make_guess_invalid by done. right. by eexists.
Qed.

Lemma play_no_escape clock draws keys :
  ∀ n game out e g x,
    reachable game →
    play clock draws n keys game = (out, e, g) → e ≠ Died (Escaped x).
Proof.
  induction keys as [|key keys IH]; intros n game out e g x Hr.
  - cbn [play]. case_match; by intros [= _ <- _].
  - cbn [play].
    pose proof (reach_start_timer (at_start_timer (clock n)) game Hr) as Hs.
    destruct (is_game_over _ _) eqn:Hover.
    + destruct key as [text| |]; try by intros [= _ <- _].
      case_decide; [|by intros [= _ <- _]].
      pose proof (reach_reset_game (draws n) _ Hs) as Hr'.
      destruct (reset_game_pick (draws n) _
                  (consistent_dictionary _ (reachable_consistent _ Hs)))
        as (target & _ & _ & Hreset).
      rewrite Hreset in *. simpl in Hr'.
      destruct (play clock draws (S n) keys _) as [[out' e'] g'] eqn:Hp.
      intros [= _ <- _]. by eapply IH.
    + destruct key as [text| |]; try by intros [= _ <- _].
      destruct (is_time_up _ _).
      * destruct (play clock draws (S n) keys _) as [[out' e'] g'] eqn:Hp.
        intros [= _ <- _]. by eapply IH.
      * pose proof (reach_make_guess (str_strip text) _ Hs) as Hm.
        destruct (make_guess_outcome (str_strip text) _
                    (reachable_consistent _ Hs)) as [[hit Hres]|[msg Hres]];
          destruct (make_guess _ _) as [res game'];
          simpl in Hres, Hm; subst res;
          destruct (play clock draws (S n) keys game') as [[out' e'] g'] eqn:Hp;
          intros [= _ <- _]; by eapply IH.
Qed.

(** X18: an exception that escapes from a run of [main] was raised by the
    constructor, before there was a game: once the object exists no guess,
    valid or not, and no reset makes [main] die.  (What is left are the
    interrupts and the end of input at a prompt.) *)
Theorem main_dies_only_in_the_constructor fs r clock draws keys out x game :
  main fs r clock draws keys = (out, Died (Escaped x), game) →
  game = None ∧ ∃ lvl, __init__ fs r lvl = Raise x.
Proof.
  unfold main.
  destruct (choose_level keys) as [[out0 [e0|lvl]] keys'] eqn:Hlevel.
  - intros [= _ -> _]. exfalso. clear -Hlevel.
    revert out0 keys' Hlevel.
    induction keys as [|[text| |] keys IH]; intros out0 keys' Hl;
      simpl in Hl; try done.
    repeat case_decide; try done.
    destruct (choose_level keys) as [[out1 r1] keys1]. injection Hl as _ -> _.
    by eapply IH.
  - destruct (__init__ fs r lvl) as [game0|e0] eqn:Hi.
    + destruct (play clock draws 0 keys' game0) as [[out' e'] game'] eqn:Hp.
      intros [= _ -> _]. exfalso.
      by apply (play_no_escape clock draws keys' 0 game0 out'
                  (Died (Escaped x)) game' x (reach_init fs r lvl _ Hi) Hp).
    + intros [= _ -> <-]. split; [done|]. by exists lvl.
Qed.

Lemma main_dies_only_in_the_constructor_witness :
  (∃ out, main (only []) 0 (steady (λ n, (100%Q, 1%Q))) (λ _, 0%nat)
            [Line "2"; Line "a"]
          = (out, Died (Escaped IndexError), None))
  ∧ __init__ (only []) 0 INTERMEDIATE = Raise IndexError.
Proof.
  destruct (main (only []) 0 (steady (λ n, (100%Q, 1%Q))) (λ _, 0%nat)
              [Line "2"; Line "a"]) as [[out e] game] eqn:Hm.
  assert (e = Died (Escaped IndexError)) as ->
    by (vm_compute in Hm; by injection Hm as _ <- _).
  destruct (main_dies_only_in_the_constructor _ _ _ _ _ _ _ _ Hm)
    as (-> & _).
  split; [by exists out | reflexivity].
Defined.

Lemma in_time_not_up s now self :
  consistent self → ¬ (s == 0)%Q → (now - s < 15)%Q →
  is_time_up now (start_timer s self) = false.
Proof.
  intros Hc Hs Hlt. apply not_true_iff_false. unfold is_time_up.
  rewrite Qle_bool_iff, remaining_running by done.
  simpl. rewrite (cons_time_limit _ Hc). change (inject_Z 15) with 15%Q.
  unfold max0. destruct (Qlt_le_dec 0 (15 - (now - s))); lra.
Qed.

Lemma status_unless_time_up now1 now2 self target :
  is_time_up now1 self = false →
  get_game_status now1 now2 self ≠ time_up_report target.
Proof.
  intros Hup. unfold get_game_status. rewrite Hup.
  destruct (reports_differ (target_word self) target (target_word self)
              (int_of (get_remaining_time now2 self)))
    as (H1 & _ & _ & H4 & H5 & _).
  destruct (won self); [exact H1|].
  destruct (current_lives self <=? 0); intros E;
    [apply H4 | apply H5]; symmetry; exact E.
Qed.

Ltac other_text :=
  let E := fresh "E" in
  intros ? E; revert E; unfold time_up_report; discriminate.

Ltac walk finish :=
  repeat (apply List.Forall_cons; [first [assumption | other_text | done]|]);
  first [apply List.Forall_nil | finish].

Lemma play_not_time_up clock draws keys :
  (∀ n, in_time (clock n)) →
  ∀ n game out e g,
    reachable game →
    play clock draws n keys game = (out, e, g) → Forall not_time_up out.
Proof.
  intros Htime. induction keys as [|key keys IH]; intros n game out e g Hr;
    destruct (Htime n) as (Hs & Hstatus & Hover & Hup & Hlate);
    pose proof (reachable_consistent _ Hr) as Hc;
    pose proof (reach_start_timer (at_start_timer (clock n)) game Hr) as Hr1;
    assert (not_time_up
              (Printed (nl +:+ get_hangman_drawing
                        (start_timer (at_start_timer (clock n)) game))))
      as Htop1 by other_text;
    assert (not_time_up
              (Printed ("Word: " +:+ get_display_string
                        (start_timer (at_start_timer (clock n)) game))))
      as Htop2 by other_text;
    assert (not_time_up
              (Printed (get_game_status (at_status (clock n)).1
                        (at_status (clock n)).2
                        (start_timer (at_start_timer (clock n)) game))))
      as Htop3
      by (intros target [= E]; revert E;
          by apply status_unless_time_up, in_time_not_up).
  - cbn [play]. destruct (is_game_over _ _); intros [= <- _ _]; walk fail.
  - cbn [play]. destruct (is_game_over _ _) eqn:Hgo.
    + destruct key as [text| |]; try (intros [= <- _ _]; walk fail).
      case_decide; [|intros [= <- _ _]; walk fail].
      pose proof (reach_reset_game (draws n) _ Hr1) as Hr'.
      destruct (reset_game _ _) as [[[]|e0] game'] eqn:Hreset; simpl in Hr';
        [|intros [= <- _ _]; walk fail].
      destruct (play clock draws (S n) keys game') as [[out' e'] g'] eqn:Hp.
      intros [= <- _ _]. walk ltac:(by eapply IH).
    + destruct key as [text| |]; try (intros [= <- _ _]; walk fail).
      rewrite (in_time_not_up _ _ _ Hc Hs Hup).
      pose proof (reach_make_guess (str_strip text) _ Hr1) as Hm.
      destruct (make_guess _ _) as [[[]|[msg| |]] game'] eqn:Hguess;
        simpl in Hm; try (intros [= <- _ _]; walk fail);
        destruct (play clock draws (S n) keys game') as [[out' e'] g'] eqn:Hp;
        intros [= <- _ _]; walk ltac:(by eapply IH).
Qed.

(** X19: [main] starts the timer anew in every turn of its loop, so the
    fifteen seconds run from the last prompt and not from the start of the
    round: as long as every clock reading of a turn is less than 15 seconds
    after the turn's [start_timer()], a run never prints the report that the
    time is up, however many turns the round takes. *)
Theorem main_times_each_answer_separately fs r clock draws keys out e game :
  (∀ n, in_time (clock n)) →
  main fs r clock draws keys = (out, e, game) →
  ∀ target, Printed (time_up_report target) ∉ out.
Proof.
  intros Htime Hmain.
  assert (Forall not_time_up out) as Hall.
  { revert Hmain. unfold main.
    assert (∀ ks out0 res ks', choose_level ks = (out0, res, ks') →
              Forall not_time_up out0) as Hlevel.
    { induction ks as [|[text| |] ks IH]; intros out0 res ks'; simpl;
        try (intros [= <- _ _]; walk fail).
      repeat case_decide; try (intros [= <- _ _]; walk fail).
      destruct (choose_level ks) as [[out1 r1] ks1].
      intros [= <- _ _]. walk ltac:(by eapply IH). }
    destruct (choose_level keys) as [[out0 [e0|lvl]] keys'] eqn:Hl;
      specialize (Hlevel _ _ _ _ Hl).
    - intros [= <- _ _]. walk ltac:(exact Hlevel).
    - destruct (__init__ fs r lvl) as [game0|e0] eqn:Hi.
      + destruct (play clock draws 0 keys' game0) as [[out' e'] g'] eqn:Hp.
        intros [= <- _ _].
        walk ltac:(apply Forall_app; split; [exact Hlevel|]).
        exact (play_not_time_up clock draws keys' Htime 0 game0 out' e' g'
                 (reach_init fs r lvl game0 Hi) Hp).
      + intros [= <- _ _]. walk ltac:(exact Hlevel). }
  intros target Hin. rewrite Forall_forall in Hall.
  by apply (Hall _ Hin target).
Qed.

Lemma main_times_each_answer_separately_witness :
  let clock := steady (λ n, ((100 + 20 * inject_Z (Z.of_nat n))%Q, 10%Q)) in
  let run :=
    main (only ["cat"]) 0 clock (λ _, 0%nat)
      [Line "1"; Line "c"; Line "x"; Line "a"; Line "y"] in
  (∀ n, in_time (clock n))
  ∧ (at_is_time_up (clock 4%nat) - at_start_timer (clock 0%nat) == 90)%Q
  ∧ ∀ target, Printed (time_up_report target) ∉ run.1.1.
Proof.
  intros clock run.
  assert (∀ n, in_time (clock n)) as Htime.
  { intros n. unfold in_time, clock, steady. simpl.
    assert (0 <= inject_Z (Z.of_nat n))%Q as Hn
      by (unfold Qle; simpl; lia).
    repeat split; lra. }
  split; [exact Htime|]. split; [vm_compute; reflexivity|].
  destruct run as [[out e] game] eqn:Hrun.
  exact (main_times_each_answer_separately _ _ _ _ _ _ _ _ Htime Hrun).
Defined.

(** A turn in which the answer takes 15 seconds or more does print it, and
    the letter typed is not passed on. *)
Example slow_answer_is_dropped :
  let slow :=
    {| at_start_timer := 100%Q; at_status := (101%Q, 101%Q);
       at_is_game_over := 101%Q; at_is_time_up := 120%Q;
       at_late_status := (120%Q, 120%Q) |} in
  let run :=
    main (only ["cat"]) 0 (λ _, slow) (λ _, 0%nat) [Line "1"; Line "c"] in
  Printed "Time remaining: 14 seconds" ∈ run.1.1
  ∧ Printed "Time's up! The answer was: 'cat'" ∈ run.1.1
  ∧ run.1.2 = AwaitingInput
  ∧ (guessed_letters <$> run.2) = Some ∅.
Proof.
  vm_compute. split; [|split; [|done]];
    repeat first [apply list_elem_of_here | apply list_elem_of_further].
Qed.

(** ** Resetting, the status line and the choice of a level *)

(** X20: resetting is constructing anew: from every reachable state
    [reset_game] leaves exactly the object that the constructor builds, with
    the same draw, for the same level from files that hold the same
    dictionary. *)
Theorem reset_is_construction self r :
  reachable self →
  ∃ fs, dictionary self = _load_dictionary fs (level self)
    ∧ __init__ fs r (level self) = Return (snd (reset_game r self))
    ∧ fst (reset_game r self) = Return ().
Proof.
  intros Hr. pose proof (reachable_consistent _ Hr) as Hc.
  destruct (dictionary_loaded self Hr) as [fs Hd]. exists fs.
  split; [done|].
  pose proof (consistent_dictionary _ Hc) as Hne.
  destruct (reset_game_pick r self Hne) as (target & _ & Hl & ->).
  rewrite Hd in Hne, Hl.
  destruct (init_pick fs r (level self) Hne) as (target' & _ & Hl' & ->).
  split; [|done]. simpl.
  assert (target' = target) as -> by congruence.
  unfold with_target, cleared, blank, set_display_word, set_target_word,
    set_start_time, set_won, set_game_over, set_guessed_letters,
    set_current_lives.
  simpl. by rewrite (cons_max_lives _ Hc), (cons_time_limit _ Hc), Hd.
Qed.

Lemma reset_is_construction_witness :
  let self := guesses ["c"; "x"; "a"; "t"] (new_game BASIC ["Cat"; "Lion"]) in
  reachable self
  ∧ (∃ fs, __init__ fs 3 BASIC = Return (snd (reset_game 3 self)))
  ∧ target_word (snd (reset_game 3 self)) = "lion".
Proof.
  intros self.
  assert (reachable self) as Hr
    by (by apply reachable_guesses, reachable_new_game).
  split; [exact Hr|].
  destruct (reset_is_construction self 3 Hr) as (fs & _ & Hi & _).
  split; [exists fs; exact Hi | vm_compute; reflexivity].
Defined.

(** X21: the status line and [is_game_over()] agree: in every reachable
    state, and for one reading of the clock, the status is the report of the
    remaining time exactly when the game is not over; otherwise it is one of
    the three reports that give the answer away. *)
Theorem status_shows_time_iff_game_goes_on self now now2 :
  reachable self →
  (is_game_over now self = false
   ↔ get_game_status now now2 self
     = time_report (int_of (get_remaining_time now2 self)))
  ∧ (is_game_over now self = true
     ↔ get_game_status now now2 self = victory_report (target_word self)
       ∨ get_game_status now now2 self = time_up_report (target_word self)
       ∨ get_game_status now now2 self = loss_report (target_word self)).
Proof.
  intros Hr. pose proof (reachable_consistent _ Hr) as Hc.
  destruct (reports_differ (target_word self) (target_word self)
              (target_word self) (int_of (get_remaining_time now2 self)))
    as (_ & _ & H3 & _ & H5 & H6).
  assert (won self = true → game_over self = true) as Hwon
    by (by intros [_ ?]%(cons_won _ Hc)).
  pose proof (game_over_cause self Hr) as Hcause.
  pose proof (cons_lost _ Hc) as Hlost.
  unfold is_game_over, get_game_status.
  fold (victory_report (target_word self)).
  fold (time_up_report (target_word self)).
  fold (loss_report (target_word self)).
  fold (time_report (int_of (get_remaining_time now2 self))).
  destruct (won self) eqn:Hw.
  { rewrite (Hwon eq_refl). simpl.
    split; [split; [done | by intros ?%H3] | split; auto]. }
  destruct (is_time_up now self) eqn:Hup.
  { rewrite orb_true_r. simpl.
    split; [split; [done | by intros ?%H5] | split; auto]. }
  rewrite orb_false_r.
  destruct (current_lives self <=? 0) eqn:Hz.
  { rewrite orb_true_r.
    split; [split; [done | by intros ?%H6] | split; auto]. }
  rewrite orb_false_r. apply Z.leb_gt in Hz.
  assert (game_over self = false) as ->.
  { apply not_true_iff_false. intros [?|?]%Hcause; [congruence | lia]. }
  split; [done|].
  split; [done|]. intros [E|[E|E]]; symmetry in E; [by apply H3 in E| |].
  - by apply H5 in E.
  - by apply H6 in E.
Qed.

Lemma status_shows_time_iff_game_goes_on_witness :
  let playing := start_timer 100 (guesses ["c"] (new_game BASIC ["cat"])) in
  reachable playing
  ∧ is_game_over 103 playing = false
  ∧ get_game_status 103 103 playing = "Time remaining: 12 seconds"
  ∧ is_game_over 115 playing = true.
Proof.
  intros playing.
  assert (reachable playing) as Hr
    by (by apply reach_start_timer, reachable_guesses, reachable_new_game).
  split; [exact Hr|].
  destruct (status_shows_time_iff_game_goes_on playing 103 103 Hr)
    as [Hgo _].
  destruct (status_shows_time_iff_game_goes_on playing 115 115 Hr)
    as [_ Hend].
  assert (is_game_over 103 playing = false) as H1
    by (vm_compute; reflexivity).
  split; [exact H1|]. split.
  - rewrite (proj1 Hgo H1). vm_compute. reflexivity.
  - apply Hend. right. left. vm_compute. reflexivity.
Defined.

(** X22: the level prompt of [main] repeats, with "Please enter 1 or 2", for
    every line that is neither 1 nor 2 once stripped, and the first line that
    is one of them selects the level and ends the prompt, the lines after it
    being left for the game. *)
Theorem level_prompt_repeats_until_valid bad choice rest :
  Forall (λ text, str_strip text ≠ "1" ∧ str_strip text ≠ "2") bad →
  str_strip choice = "1" ∨ str_strip choice = "2" →
  choose_level ((Line <$> bad) ++ Line choice :: rest)
  = (concat ((λ _, [Prompted "Enter your choice (1 or 2): ";
                    Printed "Please enter 1 or 2"]) <$> bad)
     ++ [Prompted "Enter your choice (1 or 2): "],
     inr (if decide (str_strip choice = "1") then BASIC else INTERMEDIATE),
     rest).
Proof.
  intros Hbad Hchoice. induction Hbad as [|text bad [H1 H2] Hbad IH].
  - simpl. destruct Hchoice as [-> | ->]; done.
  - change (choose_level ((Line <$> text :: bad) ++ Line choice :: rest))
      with (choose_level (Line text :: ((Line <$> bad) ++ Line choice :: rest))).
    cbn [choose_level].
    rewrite decide_False, decide_False by done. by rewrite IH.
Qed.

Lemma level_prompt_repeats_until_valid_witness :
  (Forall (λ text, str_strip text ≠ "1" ∧ str_strip text ≠ "2")
     ["3"; ""; "12"]
   ∧ (str_strip " 2 " = "1" ∨ str_strip " 2 " = "2"))
  ∧ ∃ out,
      choose_level [Line "3"; Line ""; Line "12"; Line " 2 "; Line "a"]
      = (out, inr INTERMEDIATE, [Line "a"])
      ∧ length out = 7%nat.
Proof.
  assert (Forall (λ text, str_strip text ≠ "1" ∧ str_strip text ≠ "2")
            ["3"; ""; "12"]) as Hbad
    by (repeat constructor; vm_compute; discriminate).
  assert (str_strip " 2 " = "1" ∨ str_strip " 2 " = "2") as Hchoice
    by (right; vm_compute; reflexivity).
  split; [split; assumption|].
  pose proof (level_prompt_repeats_until_valid _ " 2 " [Line "a"] Hbad Hchoice)
    as H.
  eexists. split; [exact H | reflexivity].
Defined.
